(** * The node router, the opportunity pipeline and the alert cooldown

    A shallow embedding of the parts of [TransactionMonitor.py],
    [mev_optimizer.py] and [monitor_errors.py] that route Bitcoin RPC calls
    over the node swarm, feed detected opportunities through the bounded
    queue to the workers, aggregate the performance metrics, and rate-limit
    alerts.

    Conventions of the embedding.
    - Python [int] fields are [Z]; [float] and [Decimal] quantities (scores,
      latencies, clock readings, profits) are exact rationals [Q].  The
      swarm fields are assumed to convert to [float] without overflow.
    - A Python [dict] with string keys set at run time is a [gmap string _];
      the fixed table of opportunity categories is kept as the ordered list
      of its entries, because the totals fold over it.
    - What the network, the clock, Redis and the per-category handlers do is
      supplied by the environment, as an argument of the operation.
    - Names the module uses without importing them ([Thread], [Empty]) are
      read as the standard library's [threading.Thread] and [queue.Empty]. *)

From Stdlib Require Import ZArith QArith Lqa Lia Bool List.
From stdpp Require Import gmap strings list fin_maps.
Import ListNotations.

Local Open Scope Z_scope.

(** ** Comparisons on rationals as the code writes them *)

(** [x > y] on floats. *)
Definition Qgtb (x y : Q) : bool := negb (Qle_bool x y).

(** [x < y] on floats. *)
Definition Qltb (x y : Q) : bool := Qgtb y x.

(** Truthiness of a Python string: the empty string is falsy. *)
Definition truthy (s : string) : bool :=
  match s with EmptyString => false | String _ _ => true end.

(** [a or b] where [a] may be [None] and [b] is a string. *)
Definition py_or (a : option string) (b : string) : string :=
  match a with
  | Some s => if truthy s then s else b
  | None => b
  end.

(** ** The node swarm ([TransactionMonitor.node_swarm]) *)

(** The dictionary under ['primary']: it carries no latency. *)
Record PrimaryNode := {
  p_url : string;
  p_connections : Z;
  p_last_block : Z;
  p_mempool_size : Z
}.

(** One dictionary of the ['fast_nodes'] list. *)
Record FastNode := {
  url : string;
  connections : Z;
  last_block : Z;
  mempool_size : Z;
  latency : Q
}.

Record NodeSwarm := {
  primary : PrimaryNode;
  fast_nodes : list FastNode
}.

(** The part of the monitor's state the router reads and writes. *)
Record Router := {
  node_swarm : NodeSwarm;
  best_node : option string
}.

(** [connections * 0.4 + mempool_size * 0.6] *)
Definition primary_score (p : PrimaryNode) : Q :=
  (inject_Z (p_connections p) * (4 # 10) + inject_Z (p_mempool_size p) * (6 # 10))%Q.

(** [connections * 0.3 + mempool_size * 0.5 + (1.0 - latency) * 0.2] *)
Definition node_score (n : FastNode) : Q :=
  (inject_Z (connections n) * (3 # 10) + inject_Z (mempool_size n) * (5 # 10)
   + (1 - latency n) * (2 # 10))%Q.

(** The guard of the fast-node loop:
    [node['connections'] > 0 and node['latency'] < 1.0]. *)
Definition admitted (n : FastNode) : bool :=
  (0 <? connections n) && Qltb (latency n) 1.

(** [score > best_score], where [best_score] starts at [float('-inf')]
    ([None] here). *)
Definition beats (score : Q) (best_score : option Q) : bool :=
  match best_score with
  | None => true
  | Some b => Qgtb score b
  end.

(** The pair of locals [(best_score, best_node)] of [_update_best_node]. *)
Definition Best : Type := option Q * option string.

(** The block under [# Score primary node]. *)
Definition score_primary (p : PrimaryNode) (b : Best) : Best :=
  if 0 <? p_connections p then
    if beats (primary_score p) (fst b) then (Some (primary_score p), Some (p_url p))
    else b
  else b.

(** One iteration of the loop under [# Score fast nodes]. *)
Definition score_fast_node (b : Best) (n : FastNode) : Best :=
  if admitted n then
    if beats (node_score n) (fst b) then (Some (node_score n), Some (url n))
    else b
  else b.

Definition score_fast_nodes (nodes : list FastNode) (b : Best) : Best :=
  fold_left score_fast_node nodes b.

(** The locals at the assignment [self.best_node = best_node]. *)
Definition select_best (sw : NodeSwarm) : Best :=
  score_fast_nodes (fast_nodes sw) (score_primary (primary sw) (None, None)).

(** [TransactionMonitor._update_best_node] *)
Definition _update_best_node (r : Router) : Router :=
  {| node_swarm := node_swarm r;
     best_node := snd (select_best (node_swarm r)) |}.

(** The first line of [btc_rpc]:
    [url = node_url or self.best_node or self.node_swarm['primary']['url']]. *)
Definition target_url (r : Router) (node_url : option string) : string :=
  py_or node_url (py_or (best_node r) (p_url (primary (node_swarm r)))).

(** ** RPC calls with fallback ([TransactionMonitor.btc_rpc]) *)

(** What a call gives back: a value, or an exception that leaves it. *)
Inductive outcome (R E : Type) : Type :=
| Returned (r : R)
| Raised (e : E).
Arguments Returned {R E} r.
Arguments Raised {R E} e.

(** One [requests.post]: where it goes and the JSON-RPC method and
    parameters it carries. *)
Record Request := {
  req_url : string;
  req_method : string;
  req_params : list string
}.

(** The network as the caller sees it: what [requests.post(...)] followed by
    [response.json()] gives for a request, given the requests sent before
    it.  [Raised] covers every exception of the [try] block. *)
Definition Network (R E : Type) : Type := list Request -> Request -> outcome R E.

(** [btc_rpc(method, params, node_url)].  [depth] bounds the recursion the
    way the interpreter's recursion limit does; [None] is the limit being
    hit.  The result carries the requests sent so far. *)
Fixpoint btc_rpc {R E : Type} (depth : nat) (net : Network R E) (r : Router)
    (method : string) (params : list string) (node_url : option string)
    (sent : list Request) : option (outcome R E * list Request) :=
  match depth with
  | O => None
  | S depth' =>
    let url := target_url r node_url in
    let rq := {| req_url := url; req_method := method; req_params := params |} in
    match net sent rq with
    | Returned resp => Some (Returned resp, sent ++ [rq])
    | Raised e =>
      if negb (String.eqb url (p_url (primary (node_swarm r)))) then
        btc_rpc depth' net r method params
                (Some (p_url (primary (node_swarm r)))) (sent ++ [rq])
      else Some (Raised e, sent ++ [rq])
    end
  end.

(** ** Opportunities and the performance metrics *)

(** The dictionary the analysers return.  Its [details] are not read by
    the pipeline.  Such a dictionary is never empty, so [if opportunity:]
    holds for every one of them. *)
Record Opportunity := {
  type : string;
  potential_profit : Q;
  gas_cost : Q;
  timestamp : Q
}.

(** One entry of [performance_metrics['opportunity_types']]. *)
Record TypeStats := {
  count : Z;
  profit : Q
}.

(** [self.performance_metrics], of the monitor and of the optimizer alike
    (the constant [target_multiplier] is left out). *)
Record PerformanceMetrics := {
  opportunities_found : Z;
  total_profit : Q;
  last_opportunity_time : Q;
  analysis_latency : list Q;
  success_rate : list Z;
  opportunity_types : list (string * TypeStats)
}.

Definition no_stats : TypeStats := {| count := 0; profit := 0 |}.

(** The metrics [__init__] builds, at clock reading [now]. *)
Definition initial_metrics (now : Q) : PerformanceMetrics :=
  {| opportunities_found := 0;
     total_profit := 0;
     last_opportunity_time := now;
     analysis_latency := [];
     success_rate := [];
     opportunity_types :=
       [("arbitrage"%string, no_stats); ("liquidation"%string, no_stats);
        ("sandwich"%string, no_stats); ("frontrun"%string, no_stats);
        ("backrun"%string, no_stats); ("just_in_time"%string, no_stats);
        ("time_bandit"%string, no_stats)] |}.

(** [table[key]]; [None] is the [KeyError]. *)
Fixpoint lookup_type (key : string) (table : list (string * TypeStats))
    : option TypeStats :=
  match table with
  | [] => None
  | (k, v) :: rest => if String.eqb key k then Some v else lookup_type key rest
  end.

(** [table[key] = f(table[key])] for a key that is present. *)
Fixpoint update_type (key : string) (f : TypeStats -> TypeStats)
    (table : list (string * TypeStats)) : list (string * TypeStats) :=
  match table with
  | [] => []
  | (k, v) :: rest =>
    if String.eqb key k then (k, f v) :: rest
    else (k, v) :: update_type key f rest
  end.

Definition add_count (s : TypeStats) : TypeStats :=
  {| count := count s + 1; profit := profit s |}.

Definition add_profit (p : Q) (s : TypeStats) : TypeStats :=
  {| count := count s; profit := (profit s + p)%Q |}.

Definition with_types (pm : PerformanceMetrics)
    (t : list (string * TypeStats)) : PerformanceMetrics :=
  {| opportunities_found := opportunities_found pm;
     total_profit := total_profit pm;
     last_opportunity_time := last_opportunity_time pm;
     analysis_latency := analysis_latency pm;
     success_rate := success_rate pm;
     opportunity_types := t |}.

(** The two sums of the categories and the two global totals. *)
Definition sum_counts (t : list (string * TypeStats)) : Z :=
  fold_right (fun e acc => count (snd e) + acc) 0 t.

Definition sum_profits (t : list (string * TypeStats)) : Q :=
  fold_right (fun e acc => (profit (snd e) + acc)%Q) 0%Q t.

Arguments sum_counts : simpl never.
Arguments sum_profits : simpl never.

(** ** The bounded queue *)

(** Modelled from the spec: the bounded FIFO behind
    [Queue(maxsize=1000)].  [queue.Queue] is the Python standard library's
    class and is not part of the sources; only its creation, [put] and
    [get(timeout=1)] calls are.  The spec (4.3) makes it a FIFO of fixed
    capacity whose [enqueue] blocks the producer while it is full and whose
    [dequeue] hands out the oldest item. *)
Record Queue (A : Type) := {
  maxsize : nat;
  items : list A
}.
Arguments maxsize {A} q.
Arguments items {A} q.

(** Modelled from the spec: a queue is full when it holds [maxsize] items
    (a [maxsize] of zero means no bound). *)
Definition full {A : Type} (q : Queue A) : bool :=
  (0 <? maxsize q)%nat && (maxsize q <=? length (items q))%nat.

(** Modelled from the spec: [put(item)] appends at the tail when there is
    room; [None] is the producer left blocked, the queue as it was. *)
Definition put {A : Type} (q : Queue A) (x : A) : option (Queue A) :=
  if full q then None
  else Some {| maxsize := maxsize q; items := items q ++ [x] |}.

(** Modelled from the spec: [get(timeout=1)] removes the head; [None] is
    [Empty] raised at the timeout. *)
Definition get {A : Type} (q : Queue A) : option (A * Queue A) :=
  match items q with
  | [] => None
  | x :: rest => Some (x, {| maxsize := maxsize q; items := rest |})
  end.

(** The queue together with the producers blocked in [put], each holding
    the item it is trying to enqueue. *)
Record Channel (A : Type) := {
  chan_queue : Queue A;
  chan_blocked : list A
}.
Arguments chan_queue {A} c.
Arguments chan_blocked {A} c.

(** [Queue(maxsize=n)] *)
Definition new_channel {A : Type} (n : nat) : Channel A :=
  {| chan_queue := {| maxsize := n; items := [] |}; chan_blocked := [] |}.

(** A producer calls [put(x)]. *)
Definition chan_put {A : Type} (x : A) (c : Channel A) : Channel A :=
  match put (chan_queue c) x with
  | Some q => {| chan_queue := q; chan_blocked := chan_blocked c |}
  | None => {| chan_queue := chan_queue c; chan_blocked := chan_blocked c ++ [x] |}
  end.

(** The [i]-th blocked producer is woken up and tries again. *)
Definition chan_resume {A : Type} (i : nat) (c : Channel A) : Channel A :=
  match chan_blocked c !! i with
  | Some x =>
    match put (chan_queue c) x with
    | Some q => {| chan_queue := q; chan_blocked := delete i (chan_blocked c) |}
    | None => c
    end
  | None => c
  end.

(** A consumer calls [get(timeout=1)]. *)
Definition chan_get {A : Type} (c : Channel A) : option A * Channel A :=
  match get (chan_queue c) with
  | Some (x, q) => (Some x, {| chan_queue := q; chan_blocked := chan_blocked c |})
  | None => (None, c)
  end.

(** What the queue's users do, one call after the other. *)
Inductive queue_op (A : Type) : Type :=
| QPut (x : A)
| QResume (i : nat)
| QGet.
Arguments QPut {A} x.
Arguments QResume {A} i.
Arguments QGet {A}.

(** The history of a channel: the items in the order their [put]
    completed, and the items in the order [get] returned them. *)
Record History (A : Type) := {
  chan : Channel A;
  enqueued : list A;
  dequeued : list A
}.
Arguments chan {A} h.
Arguments enqueued {A} h.
Arguments dequeued {A} h.

Definition queue_step {A : Type} (h : History A) (op : queue_op A) : History A :=
  match op with
  | QPut x =>
    {| chan := chan_put x (chan h);
       enqueued := if full (chan_queue (chan h)) then enqueued h else enqueued h ++ [x];
       dequeued := dequeued h |}
  | QResume i =>
    {| chan := chan_resume i (chan h);
       enqueued :=
         match chan_blocked (chan h) !! i with
         | Some x => if full (chan_queue (chan h)) then enqueued h else enqueued h ++ [x]
         | None => enqueued h
         end;
       dequeued := dequeued h |}
  | QGet =>
    {| chan := snd (chan_get (chan h));
       enqueued := enqueued h;
       dequeued :=
         match fst (chan_get (chan h)) with
         | Some x => dequeued h ++ [x]
         | None => dequeued h
         end |}
  end.

Definition queue_run {A : Type} (ops : list (queue_op A)) (h : History A) : History A :=
  fold_left queue_step ops h.

(** The items the producers handed to [put], in call order. *)
Definition submitted {A : Type} (ops : list (queue_op A)) : list A :=
  flat_map (fun op => match op with QPut x => [x] | _ => [] end) ops.

(** The three facts every queue operation keeps: the capacity, the bound
    on the length, and the dequeued items being the front of the enqueued
    ones. *)
Definition well_formed {A : Type} (n : nat) (h : History A) : Prop :=
  maxsize (chan_queue (chan h)) = n
  /\ (length (items (chan_queue (chan h))) <= n)%nat
  /\ enqueued h = dequeued h ++ items (chan_queue (chan h)).

(** ** Executing opportunities ([TransactionMonitor._execute_opportunity]) *)

(** The seven [_execute_*] methods the dispatch calls.  They are not
    defined in the sources, so they are taken as given: each returns a
    profit or raises. *)
Record Handlers := {
  _execute_arbitrage : Opportunity -> outcome Q string;
  _execute_liquidation : Opportunity -> outcome Q string;
  _execute_sandwich : Opportunity -> outcome Q string;
  _execute_frontrun : Opportunity -> outcome Q string;
  _execute_backrun : Opportunity -> outcome Q string;
  _execute_just_in_time : Opportunity -> outcome Q string;
  _execute_time_bandit : Opportunity -> outcome Q string
}.

(** The [if]/[elif] chain on [opp_type]; [None] when no branch is taken and
    [profit] stays unbound. *)
Definition dispatch (h : Handlers) (o : Opportunity) : option (outcome Q string) :=
  if String.eqb (type o) "arbitrage" then Some (_execute_arbitrage h o)
  else if String.eqb (type o) "liquidation" then Some (_execute_liquidation h o)
  else if String.eqb (type o) "sandwich" then Some (_execute_sandwich h o)
  else if String.eqb (type o) "frontrun" then Some (_execute_frontrun h o)
  else if String.eqb (type o) "backrun" then Some (_execute_backrun h o)
  else if String.eqb (type o) "just_in_time" then Some (_execute_just_in_time h o)
  else if String.eqb (type o) "time_bandit" then Some (_execute_time_bandit h o)
  else None.

(** The monitor's state the pipeline works on: the metrics, the queue with
    its blocked producers, the lines written by [LOGERROR], and the number
    of [task_done()] calls. *)
Record Monitor := {
  performance_metrics : PerformanceMetrics;
  opportunity_queue : Channel Opportunity;
  error_log : list string;
  tasks_done : nat
}.

(** [__init__]: fresh metrics and [Queue(maxsize=1000)]. *)
Definition new_monitor (now : Q) : Monitor :=
  {| performance_metrics := initial_metrics now;
     opportunity_queue := new_channel 1000;
     error_log := [];
     tasks_done := 0 |}.

Definition with_metrics (m : Monitor) (pm : PerformanceMetrics) : Monitor :=
  {| performance_metrics := pm;
     opportunity_queue := opportunity_queue m;
     error_log := error_log m;
     tasks_done := tasks_done m |}.

(** The [except] branch: one [LOGERROR] line, nothing else. *)
Definition log_error (prefix msg : string) (m : Monitor) : Monitor :=
  {| performance_metrics := performance_metrics m;
     opportunity_queue := opportunity_queue m;
     error_log := error_log m ++ [(prefix ++ msg)%string];
     tasks_done := tasks_done m |}.

(** The branch under [# Update performance metrics] and the latency
    sample after it, for a handler that returned [p] after [elapsed]
    seconds. *)
Definition record_result (key : string) (p elapsed : Q)
    (pm : PerformanceMetrics) : PerformanceMetrics :=
  if Qgtb p 0 then
    {| opportunities_found := opportunities_found pm;
       total_profit := (total_profit pm + p)%Q;
       last_opportunity_time := last_opportunity_time pm;
       analysis_latency := analysis_latency pm ++ [elapsed];
       success_rate := success_rate pm ++ [1];
       opportunity_types := update_type key (add_profit p) (opportunity_types pm) |}
  else
    {| opportunities_found := opportunities_found pm;
       total_profit := total_profit pm;
       last_opportunity_time := last_opportunity_time pm;
       analysis_latency := analysis_latency pm ++ [elapsed];
       success_rate := success_rate pm ++ [0];
       opportunity_types := opportunity_types pm |}.

(** [_execute_opportunity(opportunity)]; [elapsed] is what
    [time.time() - start_time] reads at the end. *)
Definition _execute_opportunity (h : Handlers) (elapsed : Q) (o : Opportunity)
    (m : Monitor) : Monitor :=
  let pm := performance_metrics m in
  match lookup_type (type o) (opportunity_types pm) with
  | None =>
    log_error "Opportunity execution error: " ("'" ++ type o ++ "'") m
  | Some _ =>
    let pm1 := with_types pm (update_type (type o) add_count (opportunity_types pm)) in
    match dispatch h o with
    | None =>
      log_error "Opportunity execution error: " "local variable 'profit' referenced before assignment"
                (with_metrics m pm1)
    | Some (Raised e) =>
      log_error "Opportunity execution error: " e (with_metrics m pm1)
    | Some (Returned p) =>
      with_metrics m (record_result (type o) p elapsed pm1)
    end
  end.

(** One iteration of the [while True] of [_process_opportunity_queue]:
    [get(timeout=1)], then the execution and [task_done()], or [continue]
    on [Empty]. *)
Definition worker_turn (h : Handlers) (elapsed : Q) (m : Monitor) : Monitor :=
  match chan_get (opportunity_queue m) with
  | (Some o, c) =>
    let m1 :=
      _execute_opportunity h elapsed o
        {| performance_metrics := performance_metrics m;
           opportunity_queue := c;
           error_log := error_log m;
           tasks_done := tasks_done m |} in
    {| performance_metrics := performance_metrics m1;
       opportunity_queue := opportunity_queue m1;
       error_log := error_log m1;
       tasks_done := S (tasks_done m1) |}
  | (None, _) => m
  end.

(** [_process_opportunity_queue], followed for as many iterations as
    there are clock readings in [turns]. *)
Definition _process_opportunity_queue (h : Handlers) (turns : list Q)
    (m : Monitor) : Monitor :=
  fold_left (fun m elapsed => worker_turn h elapsed m) turns m.

(** The body of the [for future in as_completed(futures)] loop of
    [_analyze_pending_mev], for one future's result. *)
Definition pending_mev_result (o : option Opportunity) (m : Monitor) : Monitor :=
  match o with
  | Some opp =>
    if truthy (type opp) then
      let pm := performance_metrics m in
      {| performance_metrics :=
           {| opportunities_found := opportunities_found pm + 1;
              total_profit := (total_profit pm + potential_profit opp)%Q;
              last_opportunity_time := last_opportunity_time pm;
              analysis_latency := analysis_latency pm;
              success_rate := success_rate pm;
              opportunity_types := opportunity_types pm |};
         opportunity_queue := chan_put opp (opportunity_queue m);
         error_log := error_log m;
         tasks_done := tasks_done m |}
    else m
  | None => m
  end.

(** What happens to the pipeline, one complete operation after the other:
    an analysis result arrives, a blocked [put] gets its slot, a worker
    runs one iteration. *)
Inductive event : Type :=
| Found (o : option Opportunity)
| PutResumes (i : nat)
| WorkerTurn (elapsed : Q).

Definition step (h : Handlers) (m : Monitor) (e : event) : Monitor :=
  match e with
  | Found o => pending_mev_result o m
  | PutResumes i =>
    {| performance_metrics := performance_metrics m;
       opportunity_queue := chan_resume i (opportunity_queue m);
       error_log := error_log m;
       tasks_done := tasks_done m |}
  | WorkerTurn elapsed => worker_turn h elapsed m
  end.

Definition run (h : Handlers) (events : list event) (m : Monitor) : Monitor :=
  fold_left (step h) events m.

(** The opportunities of a run that passed
    [if opportunity and opportunity['type']]. *)
Definition detected (events : list event) : list Opportunity :=
  flat_map (fun e =>
    match e with
    | Found (Some opp) => if truthy (type opp) then [opp] else []
    | _ => []
    end) events.

Definition sum_potential (opps : list Opportunity) : Q :=
  fold_right (fun o acc => (potential_profit o + acc)%Q) 0%Q opps.

Arguments sum_potential : simpl never.

(** ** The optimizer's own metrics ([MEVOptimizer.analyze_transaction]) *)

(** The first future, in completion order, whose result is an
    opportunity. *)
Fixpoint first_opportunity (results : list (option Opportunity)) : option Opportunity :=
  match results with
  | [] => None
  | Some o :: _ => Some o
  | None :: rest => first_opportunity rest
  end.

(** What [analyze_transaction] returns and does to the optimizer's
    [performance_metrics], given the futures' results in completion
    order. *)
Definition analyze_transaction (elapsed : Q) (results : list (option Opportunity))
    (pm : PerformanceMetrics) : option Opportunity * PerformanceMetrics :=
  match first_opportunity results with
  | Some o =>
    match lookup_type (type o) (opportunity_types pm) with
    | Some _ =>
      (Some o,
       with_types pm
         (update_type (type o) (add_profit (potential_profit o))
            (update_type (type o) add_count (opportunity_types pm))))
    | None => (None, pm)
    end
  | None =>
    (None,
     {| opportunities_found := opportunities_found pm;
        total_profit := total_profit pm;
        last_opportunity_time := last_opportunity_time pm;
        analysis_latency := analysis_latency pm ++ [elapsed];
        success_rate := success_rate pm;
        opportunity_types := opportunity_types pm |})
  end.

(** ** Flushing the metrics ([TransactionMonitor._update_performance_metrics]) *)

(** The mapping written to [faithswarm:performance_metrics]. *)
Record Snapshot := {
  snap_opportunities_found : Z;
  snap_total_profit : Q;
  avg_latency : Q;
  snap_success_rate : Q;
  opportunities_per_hour : Q;
  last_update : Q
}.

(** How a flush ends: the snapshot was stored, there was nothing to store,
    or an exception reached the [except] branch. *)
Inductive flush_result : Type :=
| Published (s : Snapshot)
| NothingToFlush
| FlushFailed (msg : string).

(** [sum(samples)] *)
Definition sum_Q (samples : list Q) : Q := fold_left Qplus samples 0%Q.

Definition sum_Z (samples : list Z) : Z := fold_left Z.add samples 0.

Definition len_Q {A : Type} (l : list A) : Q := inject_Z (Z.of_nat (length l)).

(** [# Reset metrics] *)
Definition reset_samples (pm : PerformanceMetrics) : PerformanceMetrics :=
  {| opportunities_found := opportunities_found pm;
     total_profit := total_profit pm;
     last_opportunity_time := last_opportunity_time pm;
     analysis_latency := [];
     success_rate := [];
     opportunity_types := opportunity_types pm |}.

(** [_update_performance_metrics()], at clock reading [current_time], with
    [hset] telling whether Redis stores the mapping or raises. *)
Definition _update_performance_metrics (current_time : Q)
    (hset : Snapshot -> outcome unit string) (pm : PerformanceMetrics)
    : PerformanceMetrics * flush_result :=
  let time_window := (current_time - last_opportunity_time pm)%Q in
  match analysis_latency pm with
  | [] => (pm, NothingToFlush)
  | _ :: _ =>
    match success_rate pm with
    | [] => (pm, FlushFailed "division by zero")
    | _ :: _ =>
      if Qeq_bool (time_window / 3600) 0 then (pm, FlushFailed "float division by zero")
      else
        let snap :=
          {| snap_opportunities_found := opportunities_found pm;
             snap_total_profit := total_profit pm;
             avg_latency := (sum_Q (analysis_latency pm) / len_Q (analysis_latency pm))%Q;
             snap_success_rate :=
               (inject_Z (sum_Z (success_rate pm)) / len_Q (success_rate pm))%Q;
             opportunities_per_hour :=
               (inject_Z (opportunities_found pm) / (time_window / 3600))%Q;
             last_update := current_time |} in
        match hset snap with
        | Returned _ => (reset_samples pm, Published snap)
        | Raised e => (pm, FlushFailed e)
        end
    end
  end.

(** ** The monitoring loop ([TransactionMonitor.start_monitoring]) *)

(** What can be raised: an [Exception], which [except Exception] catches,
    or one of the others ([KeyboardInterrupt], [SystemExit]), which it
    does not. *)
Inductive exn : Type :=
| Exception (msg : string)
| Interrupt (msg : string).

Definition str (e : exn) : string :=
  match e with Exception msg => msg | Interrupt msg => msg end.

(** What the environment does during one pass of the [while True]:
    [tick_body] is the exception that leaves the [try] block, if one does;
    [tick_rpush] is the exception [redis_conn.rpush] raises inside the
    [except] branch, if it does. *)
Record Tick := {
  tick_body : option exn;
  tick_rpush : option exn
}.

(** What the loop leaves behind: the passes begun, the [LOGERROR] lines,
    the messages pushed to [faithswarm:errors], the [time.sleep]
    arguments. *)
Record LoopState := {
  passes : nat;
  logged : list string;
  pushed : list string;
  slept : list Q
}.

Definition loop_start : LoopState :=
  {| passes := 0; logged := []; pushed := []; slept := [] |}.

(** The loop after the passes it was given: still going round, or left by
    an exception. *)
Inductive loop_result : Type :=
| Looping (s : LoopState)
| Escaped (e : exn) (s : LoopState).

(** The [while True] of [start_monitoring], for the passes in [ticks]. *)
Fixpoint start_monitoring (ticks : list Tick) (s : LoopState) : loop_result :=
  match ticks with
  | [] => Looping s
  | t :: rest =>
    let s1 := {| passes := S (passes s); logged := logged s;
                 pushed := pushed s; slept := slept s |} in
    match tick_body t with
    | None =>
      start_monitoring rest
        {| passes := passes s1; logged := logged s1; pushed := pushed s1;
           slept := slept s1 ++ [5 # 100] |}
    | Some (Interrupt msg) => Escaped (Interrupt msg) s1
    | Some (Exception msg) =>
      let error_msg := ("Enhanced monitoring error: " ++ msg)%string in
      let s2 := {| passes := passes s1; logged := logged s1 ++ [error_msg];
                   pushed := pushed s1; slept := slept s1 |} in
      match tick_rpush t with
      | Some e => Escaped e s2
      | None =>
        start_monitoring rest
          {| passes := passes s2; logged := logged s2;
             pushed := pushed s2 ++ [error_msg];
             slept := slept s2 ++ [1 # 10] |}
      end
    end
  end.

(** ** The alert cooldown ([SystemMonitor.should_alert]) *)

(** [self.alert_cooldown], set once in [__init__]. *)
Definition alert_cooldown : Q := 300.

(** [should_alert(issue_type)] at clock reading [current_time]: the answer
    and the new [self.last_alert_time]. *)
Definition should_alert (current_time : Q) (issue_type : string)
    (last_alert_time : gmap string Q) : bool * gmap string Q :=
  let last_alert_time1 :=
    match last_alert_time !! issue_type with
    | Some _ => last_alert_time
    | None => <[issue_type := 0%Q]> last_alert_time
    end in
  let last := default 0%Q (last_alert_time1 !! issue_type) in
  if Qgtb (current_time - last) alert_cooldown then
    (true, <[issue_type := current_time]> last_alert_time1)
  else (false, last_alert_time1).

(** A series of [should_alert] calls, each with its clock reading: the
    answers in call order. *)
Fixpoint alerts (calls : list (Q * string)) (last_alert_time : gmap string Q)
    : list bool :=
  match calls with
  | [] => []
  | (t, ty) :: rest =>
    let r := should_alert t ty last_alert_time in
    fst r :: alerts rest (snd r)
  end.

(** ** Concrete states used below *)

(** The three endpoints of the spec's scenario.  The primary's 50 ms are
    not part of the state: the code keeps no latency for the primary. *)
Definition secondary_A : FastNode :=
  {| url := "A"; connections := 10; last_block := 0; mempool_size := 50;
     latency := 1500 # 1000 |}.

Definition secondary_B : FastNode :=
  {| url := "B"; connections := 8; last_block := 0; mempool_size := 80;
     latency := 200 # 1000 |}.

Definition scenario_swarm : NodeSwarm :=
  {| primary := {| p_url := "primary"; p_connections := 5; p_last_block := 0;
                   p_mempool_size := 100 |};
     fast_nodes := [secondary_A; secondary_B] |}.

(** Two configured URLs.  The primary has not answered a probe yet, so its
    counters are as [__init__] set them; the fast node answered its probe
    in two seconds. *)
Definition startup_router : Router :=
  {| node_swarm :=
       {| primary := {| p_url := "http://node0:8332"; p_connections := 0;
                        p_last_block := 0; p_mempool_size := 0 |};
          fast_nodes := [ {| url := "http://node1:8332"; connections := 3;
                             last_block := 0; mempool_size := 40;
                             latency := 2 |} ] |};
     best_node := None |}.

(** A network on which every request fails. *)
Definition all_fail : Network string string := fun _ _ => Raised "timed out"%string.

(** An arbitrage opportunity worth a hundredth. *)
Definition arbitrage_opp : Opportunity :=
  {| type := "arbitrage"; potential_profit := 1 # 100; gas_cost := 0; timestamp := 0 |}.

(** Handlers that realise the opportunity's potential profit. *)
Definition paying_handlers : Handlers :=
  let pay := fun o : Opportunity => Returned (potential_profit o) in
  {| _execute_arbitrage := pay; _execute_liquidation := pay; _execute_sandwich := pay;
     _execute_frontrun := pay; _execute_backrun := pay; _execute_just_in_time := pay;
     _execute_time_bandit := pay |}.

(** Handlers that always raise. *)
Definition failing_handlers : Handlers :=
  let fail := fun _ : Opportunity => Raised "execution reverted"%string in
  {| _execute_arbitrage := fail; _execute_liquidation := fail; _execute_sandwich := fail;
     _execute_frontrun := fail; _execute_backrun := fail; _execute_just_in_time := fail;
     _execute_time_bandit := fail |}.

(** A fresh monitor with one arbitrage opportunity detected and queued. *)
Definition one_queued : Monitor :=
  pending_mev_result (Some arbitrage_opp) (new_monitor 0).

(** The history of the monitor's queue at start-up. *)
Definition fresh_history (now : Q) : History Opportunity :=
  {| chan := opportunity_queue (new_monitor now); enqueued := []; dequeued := [] |}.

(** Metrics with one executed opportunity waiting to be flushed. *)
Definition sampled_metrics : PerformanceMetrics :=
  {| opportunities_found := 1;
     total_profit := 2 # 100;
     last_opportunity_time := 0;
     analysis_latency := [1 # 2];
     success_rate := [1];
     opportunity_types :=
       update_type "arbitrage" (add_profit (1 # 100))
         (update_type "arbitrage" add_count (opportunity_types (initial_metrics 0))) |}.

(** Redis storing the mapping, and Redis refusing the connection. *)
Definition redis_up : Snapshot -> outcome unit string := fun _ => Returned tt.

Definition redis_down : Snapshot -> outcome unit string :=
  fun _ => Raised "Connection refused"%string.

(** A pass of the monitoring loop during which Redis is unreachable: the
    error that leaves the [try] block and the error of the [rpush] that
    reports it. *)
Definition redis_outage : Tick :=
  {| tick_body := Some (Exception "Error 111 connecting to localhost:6379");
     tick_rpush := Some (Exception "Error 111 connecting to localhost:6379") |}.

(** A pass without any error. *)
Definition quiet_tick : Tick := {| tick_body := None; tick_rpush := None |}.

(** ** Further definitions *)

(** The arithmetic of the scores, left open.  The code computes the
    scores and compares them in binary floating point; [primary_score] and
    [node_score] above compute them exactly.  A [Scoring] is any way of
    doing it: the type of the scores, the comparison [x > y], and what the
    two score expressions evaluate to.  A score is taken to compare above
    [float('-inf')], that is, not to be a NaN. *)
Record Scoring := {
  score : Type;
  score_gt : score -> score -> bool;
  primary_score_of : PrimaryNode -> score;
  node_score_of : FastNode -> score
}.

(** The exact arithmetic of [primary_score] and [node_score]. *)
Definition exact_scoring : Scoring :=
  {| score := Q; score_gt := Qgtb;
     primary_score_of := primary_score; node_score_of := node_score |}.

(** [score > best_score], with [None] for [float('-inf')]. *)
Definition beats_with (sc : Scoring) (s : score sc) (best_score : option (score sc)) : bool :=
  match best_score with
  | None => true
  | Some b => score_gt sc s b
  end.

(** The block under [# Score primary node]. *)
Definition score_primary_with (sc : Scoring) (p : PrimaryNode)
    (b : option (score sc) * option string) : option (score sc) * option string :=
  if 0 <? p_connections p then
    if beats_with sc (primary_score_of sc p) (fst b)
    then (Some (primary_score_of sc p), Some (p_url p))
    else b
  else b.

(** One iteration of the loop under [# Score fast nodes]. *)
Definition score_fast_node_with (sc : Scoring)
    (b : option (score sc) * option string) (n : FastNode)
    : option (score sc) * option string :=
  if admitted n then
    if beats_with sc (node_score_of sc n) (fst b)
    then (Some (node_score_of sc n), Some (url n))
    else b
  else b.

(** The locals [(best_score, best_node)] at the assignment
    [self.best_node = best_node]. *)
Definition select_best_with (sc : Scoring) (sw : NodeSwarm)
    : option (score sc) * option string :=
  fold_left (score_fast_node_with sc) (fast_nodes sw)
            (score_primary_with sc (primary sw) (None, None)).

(** [_update_best_node], in the arithmetic [sc]. *)
Definition _update_best_node_with (sc : Scoring) (r : Router) : Router :=
  {| node_swarm := node_swarm r;
     best_node := snd (select_best_with sc (node_swarm r)) |}.

(** The endpoints [_update_best_node] lets compete, each with the URL and
    the score it would store: the primary if it has a connection, then the
    fast nodes that pass the guard, in list order. *)
Definition candidates_with (sc : Scoring) (sw : NodeSwarm) : list (string * score sc) :=
  (if 0 <? p_connections (primary sw)
   then [(p_url (primary sw), primary_score_of sc (primary sw))] else [])
  ++ map (fun n => (url n, node_score_of sc n))
         (filter (fun n => admitted n = true) (fast_nodes sw)).

(** The router of a configuration whose first URL is empty
    ([RPC_BTC_URLS=",B"]), after the fast node B was selected. *)
Definition unconfigured_primary_router : Router :=
  {| node_swarm :=
       {| primary := {| p_url := ""; p_connections := 0; p_last_block := 0;
                        p_mempool_size := 0 |};
          fast_nodes := [secondary_B] |};
     best_node := Some "B"%string |}.

(** The sample buffers as the worker keeps them: one success flag, zero or
    one, for every latency sample. *)
Definition paired_samples (pm : PerformanceMetrics) : Prop :=
  length (analysis_latency pm) = length (success_rate pm)
  /\ Forall (fun b => b = 0 \/ b = 1) (success_rate pm).

(** The category names of a metrics table, in order. *)
Definition categories (pm : PerformanceMetrics) : list string :=
  map fst (opportunity_types pm).

(** ** Transactions and the analysers *)

(** The fields of a transaction and of its receipt the analysers read. *)
Record Tx := {
  tx_hash : string;
  gasPrice : Z
}.

Record Receipt := {
  gasUsed : Z
}.

(** The [web3] calls the analysers make.  Each returns or raises;
    [from_wei] takes the amount and the unit. *)
Record Web3 := {
  get_transaction : string -> outcome Tx string;
  get_transaction_receipt : string -> outcome Receipt string;
  from_wei : Z -> string -> outcome Q string
}.

Module MEVOptimizer.

(** One entry of [MEV_CONFIG['opportunity_types']]. *)
Record TypeSettings := {
  profit_threshold : Q;
  gas_limit : Z;
  max_slippage : Q;
  min_liquidity : Q
}.

(** [MEV_CONFIG['performance']] *)
Record Performance := {
  max_concurrent_analysis : Z;
  analysis_timeout : Q;
  retry_attempts : Z;
  retry_delay : Q;
  batch_size : Z
}.

(** [self.MEV_CONFIG] *)
Record Config := {
  cfg_min_profit_threshold : Q;
  cfg_max_gas_price : Z;
  cfg_min_liquidity : Q;
  cfg_max_slippage : Q;
  cfg_target_profit : Q;
  cfg_opportunity_types : list (string * TypeSettings);
  cfg_performance : Performance;
  cfg_arbitrage_pairs : list (string * string);
  cfg_dex_addresses : list (string * string)
}.

Definition type_settings (limit : Z) : TypeSettings :=
  {| profit_threshold := 1 # 1000; gas_limit := limit;
     max_slippage := 3 # 100; min_liquidity := 1 # 10 |}.

(** The configuration [__init__] builds. *)
Definition MEV_CONFIG : Config :=
  {| cfg_min_profit_threshold := 1 # 1000;
     cfg_max_gas_price := 300;
     cfg_min_liquidity := 1 # 10;
     cfg_max_slippage := 3 # 100;
     cfg_target_profit := 12846;
     cfg_opportunity_types :=
       [("arbitrage", type_settings 500000); ("liquidation", type_settings 600000);
        ("sandwich", type_settings 400000); ("frontrun", type_settings 300000);
        ("backrun", type_settings 300000); ("just_in_time", type_settings 400000);
        ("time_bandit", type_settings 400000)]%string;
     cfg_performance :=
       {| max_concurrent_analysis := 20; analysis_timeout := 1 # 2;
          retry_attempts := 3; retry_delay := 1 # 10; batch_size := 500 |};
     cfg_arbitrage_pairs :=
       [("WETH", "USDC"); ("WETH", "USDT"); ("WETH", "DAI"); ("WBTC", "WETH");
        ("WBTC", "USDC"); ("WBTC", "USDT"); ("WBTC", "DAI"); ("WETH", "LINK");
        ("WETH", "UNI"); ("WETH", "AAVE"); ("WETH", "SNX"); ("WETH", "MKR");
        ("WBTC", "LINK"); ("WBTC", "UNI"); ("WBTC", "AAVE"); ("WBTC", "SNX");
        ("WBTC", "MKR"); ("LINK", "USDC"); ("UNI", "USDC"); ("AAVE", "USDC");
        ("SNX", "USDC"); ("MKR", "USDC")]%string;
     cfg_dex_addresses :=
       [("uniswap_v2", "0x7a250d5630B4cF539739dF2C5dAcb4c659F2488D");
        ("uniswap_v3", "0xE592427A0AEce92De3Edee1F18E0157C05861564");
        ("sushiswap", "0xd9e1cE17f2641f24aE83637ab66a2cca9C378B9F");
        ("pancakeswap", "0x10ED43C718714eb63d5aA57B78B54704E256024E");
        ("dodo", "0x6B0956258fF6bd4a24795392fB99786D4D9f1Fb5");
        ("kyber", "0x6131B5fae19EA4f9D964eAc0408E4408b66337b5");
        ("bancor", "0x2F9EC37d6CcFFf1caB21733BdaDEdE11C823cCB0");
        ("synthetix", "0x823bE81bFd6Fd5Dc2aB5d6e3B0E0aF0F3aC4Fd5c");
        ("perpetual", "0x4D1D4b850032dFEbCa1eB3AA385FfD1dc629c450");
        ("curve", "0x99a58482BD75cbab83b27EC03CA68fF489b5788f");
        ("balancer", "0xBA12222222228d8Ba445958a75a0704d566BF2C8");
        ("1inch", "0x1111111254EEB25477B68fb85Ed929f73A960582")]%string |}.

(** [table[opp_type]]; [None] is the [KeyError]. *)
Fixpoint lookup_settings (opp_type : string) (table : list (string * TypeSettings))
    : option TypeSettings :=
  match table with
  | [] => None
  | (k, v) :: rest =>
    if String.eqb opp_type k then Some v else lookup_settings opp_type rest
  end.

(** The seven per-type analyses.  Each is [return Decimal('0')]. *)
Definition _analyze_arbitrage (tx : Tx) (receipt : Receipt) : Q := 0.
Definition _analyze_liquidation (tx : Tx) (receipt : Receipt) : Q := 0.
Definition _analyze_sandwich (tx : Tx) (receipt : Receipt) : Q := 0.
Definition _analyze_frontrun (tx : Tx) (receipt : Receipt) : Q := 0.
Definition _analyze_backrun (tx : Tx) (receipt : Receipt) : Q := 0.
Definition _analyze_just_in_time (tx : Tx) (receipt : Receipt) : Q := 0.
Definition _analyze_time_bandit (tx : Tx) (receipt : Receipt) : Q := 0.

(** The [if]/[elif] chain under [# Type-specific analysis]; [None] is its
    [else: return None]. *)
Definition type_profit (opp_type : string) (tx : Tx) (receipt : Receipt) : option Q :=
  if String.eqb opp_type "arbitrage" then Some (_analyze_arbitrage tx receipt)
  else if String.eqb opp_type "liquidation" then Some (_analyze_liquidation tx receipt)
  else if String.eqb opp_type "sandwich" then Some (_analyze_sandwich tx receipt)
  else if String.eqb opp_type "frontrun" then Some (_analyze_frontrun tx receipt)
  else if String.eqb opp_type "backrun" then Some (_analyze_backrun tx receipt)
  else if String.eqb opp_type "just_in_time" then Some (_analyze_just_in_time tx receipt)
  else if String.eqb opp_type "time_bandit" then Some (_analyze_time_bandit tx receipt)
  else None.

(** [_analyze_opportunity_type(opp_type, tx, receipt)], with [now] what
    [time.time()] reads.  Every exception ends in the [except] branch,
    which logs it and returns [None]. *)
Definition _analyze_opportunity_type (w3 : Web3) (config : Config) (now : Q)
    (opp_type : string) (tx : Tx) (receipt : Receipt) : option Opportunity :=
  match lookup_settings opp_type (cfg_opportunity_types config) with
  | None => None
  | Some settings =>
    match from_wei w3 (gasPrice tx) "gwei" with
    | Raised _ => None
    | Returned gwei =>
      if Qgtb gwei (inject_Z (cfg_max_gas_price config)) then None
      else
        match type_profit opp_type tx receipt with
        | None => None
        | Some profit =>
          if Qgtb profit (profit_threshold settings) then
            match from_wei w3 (gasPrice tx * gasUsed receipt) "ether" with
            | Raised _ => None
            | Returned gas =>
              Some {| type := opp_type; potential_profit := profit;
                      gas_cost := gas; timestamp := now |}
            end
          else None
        end
    end
  end.

(** The results of the futures [analyze_transaction] submits, one per key
    of [MEV_CONFIG['opportunity_types']], in submission order. *)
Definition submitted_analyses (w3 : Web3) (config : Config) (now : Q)
    (tx : Tx) (receipt : Receipt) : list (option Opportunity) :=
  map (fun entry => _analyze_opportunity_type w3 config now (fst entry) tx receipt)
      (cfg_opportunity_types config).

End MEVOptimizer.

(** ** The monitor's own analysers *)

(** The helpers [_analyze_just_in_time] and [_analyze_time_bandit] call.
    They are not defined in the sources, so they are taken as given. *)
Record Detectors := {
  _is_jit_opportunity : Tx -> Receipt -> outcome bool string;
  _calculate_jit_profit : Tx -> Receipt -> outcome Q string;
  _get_jit_details : Tx -> Receipt -> outcome unit string;
  _is_time_bandit_opportunity : Tx -> Receipt -> outcome bool string;
  _calculate_time_bandit_profit : Tx -> Receipt -> outcome Q string;
  _get_time_bandit_details : Tx -> Receipt -> outcome unit string
}.

(** The body shared by the two analysers: fetch the transaction and its
    receipt, ask whether it is an opportunity, compute the profit, compare
    it with [MEV_SETTINGS['min_profit_threshold']] and build the
    dictionary.  Every exception ends in [return None]. *)
Definition analyse_with (w3 : Web3) (name : string)
    (is_opportunity : Tx -> Receipt -> outcome bool string)
    (calculate_profit : Tx -> Receipt -> outcome Q string)
    (get_details : Tx -> Receipt -> outcome unit string)
    (min_profit_threshold now : Q) (hash : string) : option Opportunity :=
  match get_transaction w3 hash with
  | Raised _ => None
  | Returned tx =>
    match get_transaction_receipt w3 hash with
    | Raised _ => None
    | Returned receipt =>
      match is_opportunity tx receipt with
      | Raised _ => None
      | Returned false => None
      | Returned true =>
        match calculate_profit tx receipt with
        | Raised _ => None
        | Returned profit =>
          if Qgtb profit min_profit_threshold then
            match from_wei w3 (gasPrice tx * gasUsed receipt) "ether" with
            | Raised _ => None
            | Returned gas =>
              match get_details tx receipt with
              | Raised _ => None
              | Returned _ =>
                Some {| type := name; potential_profit := profit;
                        gas_cost := gas; timestamp := now |}
              end
            end
          else None
        end
      end
    end
  end.

(** [TransactionMonitor._analyze_just_in_time(tx_hash)] *)
Definition _analyze_just_in_time (w3 : Web3) (d : Detectors)
    (min_profit_threshold now : Q) (hash : string) : option Opportunity :=
  analyse_with w3 "just_in_time" (_is_jit_opportunity d) (_calculate_jit_profit d)
               (_get_jit_details d) min_profit_threshold now hash.

(** [TransactionMonitor._analyze_time_bandit(tx_hash)] *)
Definition _analyze_time_bandit (w3 : Web3) (d : Detectors)
    (min_profit_threshold now : Q) (hash : string) : option Opportunity :=
  analyse_with w3 "time_bandit" (_is_time_bandit_opportunity d)
               (_calculate_time_bandit_profit d) (_get_time_bandit_details d)
               min_profit_threshold now hash.

(** A node whose [from_wei] divides by the unit and whose lookups fail. *)
Definition plain_web3 : Web3 :=
  {| get_transaction := fun _ => Raised "not found"%string;
     get_transaction_receipt := fun _ => Raised "not found"%string;
     from_wei := fun amount unit =>
       Returned (if String.eqb unit "gwei" then inject_Z amount / 1000000000
                 else inject_Z amount / 1000000000000000000)%Q |}.

(** A node that knows one transaction, and helpers that see a
    just-in-time opportunity worth a fiftieth in it. *)
Definition one_tx_web3 : Web3 :=
  {| get_transaction := fun hash => Returned {| tx_hash := hash; gasPrice := 20000000000 |};
     get_transaction_receipt := fun _ => Returned {| gasUsed := 21000 |};
     from_wei := from_wei plain_web3 |}.

Definition eager_detectors : Detectors :=
  {| _is_jit_opportunity := fun _ _ => Returned true;
     _calculate_jit_profit := fun _ _ => Returned (1 # 50);
     _get_jit_details := fun _ _ => Returned tt;
     _is_time_bandit_opportunity := fun _ _ => Returned false;
     _calculate_time_bandit_profit := fun _ _ => Raised "unused"%string;
     _get_time_bandit_details := fun _ _ => Raised "unused"%string |}.

(** ** Probing the nodes ([TransactionMonitor._update_node_health]) *)

(** What the health check reads from a reply: the integer fields of
    [reply['result']] it asks for, [None] where the key is missing (for all
    three when there is no usable ['result']). *)
Record NodeInfo := {
  info_connections : option Z;
  info_blocks : option Z;
  info_size : option Z
}.

(** The monitor's state the health check works on. *)
Record Health := {
  router : Router;
  last_node_health_check : Q;
  node_health_check_interval : Q
}.

Definition with_primary (r : Router) (p : PrimaryNode) : Router :=
  {| node_swarm := {| primary := p; fast_nodes := fast_nodes (node_swarm r) |};
     best_node := best_node r |}.

Definition with_fast_nodes (r : Router) (nodes : list FastNode) : Router :=
  {| node_swarm := {| primary := primary (node_swarm r); fast_nodes := nodes |};
     best_node := best_node r |}.

(** The block under [# Check primary node].  An exception at any point
    ends it, with what was assigned before kept.  [None] is the recursion
    limit hit inside [btc_rpc]. *)
Definition probe_primary (depth : nat) (net : Network NodeInfo string)
    (r : Router) (sent : list Request) : option (Router * list Request) :=
  let p := primary (node_swarm r) in
  match btc_rpc depth net r "getblockchaininfo" [] (Some (p_url p)) sent with
  | None => None
  | Some (Raised _, sent1) => Some (r, sent1)
  | Some (Returned info, sent1) =>
    match info_connections info with
    | None => Some (r, sent1)
    | Some c =>
      let p1 := {| p_url := p_url p; p_connections := c;
                   p_last_block := p_last_block p; p_mempool_size := p_mempool_size p |} in
      match info_blocks info with
      | None => Some (with_primary r p1, sent1)
      | Some b =>
        let p2 := {| p_url := p_url p; p_connections := c;
                     p_last_block := b; p_mempool_size := p_mempool_size p |} in
        match btc_rpc depth net (with_primary r p2) "getmempoolinfo" []
                      (Some (p_url p)) sent1 with
        | None => None
        | Some (Raised _, sent2) => Some (with_primary r p2, sent2)
        | Some (Returned mempool, sent2) =>
          match info_size mempool with
          | None => Some (with_primary r p2, sent2)
          | Some s =>
            Some (with_primary r {| p_url := p_url p; p_connections := c;
                                    p_last_block := b; p_mempool_size := s |}, sent2)
          end
        end
      end
    end
  end.

(** One pass of the loop under [# Check fast nodes]; [clock] is what
    [time.time()] reads, given the requests sent so far. *)
Definition probe_fast_node (depth : nat) (net : Network NodeInfo string)
    (clock : list Request -> Q) (r : Router) (node : FastNode)
    (sent : list Request) : option (FastNode * list Request) :=
  let start_time := clock sent in
  match btc_rpc depth net r "getblockchaininfo" [] (Some (url node)) sent with
  | None => None
  | Some (Raised _, sent1) => Some (node, sent1)
  | Some (Returned info, sent1) =>
    let n1 := {| url := url node; connections := connections node;
                 last_block := last_block node; mempool_size := mempool_size node;
                 latency := (clock sent1 - start_time)%Q |} in
    match info_connections info with
    | None => Some (n1, sent1)
    | Some c =>
      let n2 := {| url := url node; connections := c;
                   last_block := last_block node; mempool_size := mempool_size node;
                   latency := latency n1 |} in
      match info_blocks info with
      | None => Some (n2, sent1)
      | Some b =>
        let n3 := {| url := url node; connections := c;
                     last_block := b; mempool_size := mempool_size node;
                     latency := latency n1 |} in
        match btc_rpc depth net r "getmempoolinfo" [] (Some (url node)) sent1 with
        | None => None
        | Some (Raised _, sent2) => Some (n3, sent2)
        | Some (Returned mempool, sent2) =>
          match info_size mempool with
          | None => Some (n3, sent2)
          | Some s =>
            Some ({| url := url node; connections := c; last_block := b;
                     mempool_size := s; latency := latency n1 |}, sent2)
          end
        end
      end
    end
  end.

(** The loop under [# Check fast nodes]. *)
Fixpoint probe_fast_nodes (depth : nat) (net : Network NodeInfo string)
    (clock : list Request -> Q) (r : Router) (nodes : list FastNode)
    (sent : list Request) : option (list FastNode * list Request) :=
  match nodes with
  | [] => Some ([], sent)
  | node :: rest =>
    match probe_fast_node depth net clock r node sent with
    | None => None
    | Some (node', sent1) =>
      match probe_fast_nodes depth net clock r rest sent1 with
      | None => None
      | Some (rest', sent2) => Some (node' :: rest', sent2)
      end
    end
  end.

(** [_update_node_health()] *)
Definition _update_node_health (depth : nat) (net : Network NodeInfo string)
    (clock : list Request -> Q) (h : Health) (sent : list Request)
    : option (Health * list Request) :=
  let current_time := clock sent in
  if Qltb (current_time - last_node_health_check h) (node_health_check_interval h)
  then Some (h, sent)
  else
    match probe_primary depth net (router h) sent with
    | None => None
    | Some (r1, sent1) =>
      match probe_fast_nodes depth net clock r1 (fast_nodes (node_swarm r1)) sent1 with
      | None => None
      | Some (nodes, sent2) =>
        Some ({| router := _update_best_node (with_fast_nodes r1 nodes);
                 last_node_health_check := current_time;
                 node_health_check_interval := node_health_check_interval h |},
              sent2)
      end
    end.

(** The URLs a router is configured with. *)
Definition endpoint_urls (r : Router) : list string :=
  p_url (primary (node_swarm r)) :: map url (fast_nodes (node_swarm r)).

(** A network on which the fast node B is down and every other node
    answers with twelve connections at block 840000, and a clock that
    advances a quarter of a second per request. *)
Definition degraded_net : Network NodeInfo string :=
  fun _ rq =>
    if String.eqb (req_url rq) "B" then Raised "connection refused"%string
    else Returned {| info_connections := Some 12; info_blocks := Some 840000;
                     info_size := Some 5000 |}.

Definition request_clock (sent : list Request) : Q :=
  inject_Z (Z.of_nat (length sent)) / 4.

(** ** Container statistics ([SystemMonitor._calculate_cpu_percent],
    [SystemMonitor._calculate_memory_percent]) *)

(** The values a statistics document is made of. *)
#[warnings="-register-all"]
Inductive pyval : Type :=
| VNone
| VBool (b : bool)
| VInt (z : Z)
| VFloat (q : Q)
| VStr (s : string)
| VList (l : list pyval)
| VDict (d : list (string * pyval)).

(** The exceptions the two calculations can meet. *)
Inductive pyerr : Type :=
| KeyError
| TypeError
| ZeroDivisionError.

Fixpoint dict_get (key : string) (d : list (string * pyval)) : option pyval :=
  match d with
  | [] => None
  | (k, v) :: rest => if String.eqb key k then Some v else dict_get key rest
  end.

(** [v[key]] for a string key: a dictionary gives the value or
    [KeyError]; anything else is not subscriptable by a string. *)
Definition getitem (v : pyval) (key : string) : outcome pyval pyerr :=
  match v with
  | VDict d =>
    match dict_get key d with
    | Some x => Returned x
    | None => Raised KeyError
    end
  | _ => Raised TypeError
  end.

(** The number a value stands for in arithmetic, if it is one. *)
Definition as_number (v : pyval) : option Q :=
  match v with
  | VBool b => Some (if b then 1 else 0)%Q
  | VInt z => Some (inject_Z z)
  | VFloat q => Some q
  | _ => None
  end.

(** [a - b] *)
Definition py_sub (a b : pyval) : outcome Q pyerr :=
  match as_number a, as_number b with
  | Some x, Some y => Returned (x - y)%Q
  | _, _ => Raised TypeError
  end.

(** [a / b] *)
Definition py_div (a b : Q) : outcome Q pyerr :=
  if Qeq_bool b 0 then Raised ZeroDivisionError else Returned (a / b)%Q.

(** Sequencing: the first exception ends the evaluation. *)
Definition and_then {A B : Type} (x : outcome A pyerr) (f : A -> outcome B pyerr)
    : outcome B pyerr :=
  match x with
  | Returned a => f a
  | Raised e => Raised e
  end.

(** The [try] block of [_calculate_cpu_percent], in evaluation order. *)
Definition cpu_percent_try (stats : pyval) : outcome Q pyerr :=
  and_then (getitem stats "cpu_stats") (fun cpu_stats =>
  and_then (getitem cpu_stats "cpu_usage") (fun cpu_usage =>
  and_then (getitem cpu_usage "total_usage") (fun total =>
  and_then (getitem stats "precpu_stats") (fun precpu_stats =>
  and_then (getitem precpu_stats "cpu_usage") (fun precpu_usage =>
  and_then (getitem precpu_usage "total_usage") (fun pretotal =>
  and_then (py_sub total pretotal) (fun cpu_delta =>
  and_then (getitem stats "cpu_stats") (fun cpu_stats' =>
  and_then (getitem cpu_stats' "system_cpu_usage") (fun system =>
  and_then (getitem stats "precpu_stats") (fun precpu_stats' =>
  and_then (getitem precpu_stats' "system_cpu_usage") (fun presystem =>
  and_then (py_sub system presystem) (fun system_delta =>
  and_then (py_div cpu_delta system_delta) (fun ratio =>
  let cpu_percent := (ratio * 100)%Q in
  Returned (if Qltb 100 cpu_percent then 100%Q else cpu_percent)))))))))))))).

(** What [except (KeyError, ZeroDivisionError): return 0.0] makes of the
    block's outcome; a [TypeError] goes on to the caller. *)
Definition or_zero (r : outcome Q pyerr) : outcome Q pyerr :=
  match r with
  | Raised KeyError => Returned 0%Q
  | Raised ZeroDivisionError => Returned 0%Q
  | other => other
  end.

(** [_calculate_cpu_percent(stats)] *)
Definition _calculate_cpu_percent (stats : pyval) : outcome Q pyerr :=
  or_zero (cpu_percent_try stats).

(** [_calculate_memory_percent(stats)] *)
Definition _calculate_memory_percent (stats : pyval) : outcome Q pyerr :=
  or_zero
    (and_then (getitem stats "memory_stats") (fun memory_stats =>
     and_then (getitem memory_stats "usage") (fun usage =>
     and_then (getitem stats "memory_stats") (fun memory_stats' =>
     and_then (getitem memory_stats' "limit") (fun limit =>
     match as_number usage, as_number limit with
     | Some u, Some l => and_then (py_div u l) (fun ratio => Returned (ratio * 100)%Q)
     | _, _ => Raised TypeError
     end))))).

(** ** Handling the issues ([SystemMonitor.monitor_all]) *)

(** The fields of an issue the loop reads. *)
Record Issue := {
  issue_type : string;
  message : string
}.

(** What the environment does while one issue is handled: what
    [time.time()] reads inside [should_alert], what it reads for the
    stored timestamp, and whether Redis takes the [lpush] and then the
    [ltrim] or raises. *)
Record IssueEnv := {
  check_time : Q;
  push_time : Q;
  lpush_result : outcome unit string;
  ltrim_result : outcome unit string
}.

(** The monitor's state the loop works on: the alert times, the issues
    logged as [ALERT] and those logged as non-alerting, in order, and the
    Redis list [monitor_alerts], newest first. *)
Record AlertState := {
  alert_times : gmap string Q;
  alerted : list Issue;
  not_alerted : list Issue;
  monitor_alerts : list (Q * Issue)
}.

(** The loop under [# Process and log issues]; the second component is
    the exception that ended it, if one did. *)
Fixpoint process_issues (issues : list (Issue * IssueEnv)) (s : AlertState)
    : AlertState * option string :=
  match issues with
  | [] => (s, None)
  | (issue, env) :: rest =>
    let r := should_alert (check_time env) (issue_type issue) (alert_times s) in
    if fst r then
      let s1 := {| alert_times := snd r; alerted := alerted s ++ [issue];
                   not_alerted := not_alerted s; monitor_alerts := monitor_alerts s |} in
      match lpush_result env with
      | Raised e => (s1, Some e)
      | Returned _ =>
        let pushed := (push_time env, issue) :: monitor_alerts s1 in
        match ltrim_result env with
        | Raised e =>
          ({| alert_times := alert_times s1; alerted := alerted s1;
              not_alerted := not_alerted s1; monitor_alerts := pushed |}, Some e)
        | Returned _ =>
          process_issues rest
            {| alert_times := alert_times s1; alerted := alerted s1;
               not_alerted := not_alerted s1; monitor_alerts := take 1000 pushed |}
        end
      end
    else
      process_issues rest
        {| alert_times := snd r; alerted := alerted s;
           not_alerted := not_alerted s ++ [issue]; monitor_alerts := monitor_alerts s |}
  end.

(** ** The checker's loop ([main] of [monitor_errors.py]) *)

(** What can be raised during a pass of [main]. *)
Inductive raised : Type :=
| RException (msg : string)
| RKeyboardInterrupt
| RSystemExit.

(** What the environment does during one pass: what is raised inside the
    [try] block ([monitor_all()] and the sleep after it), and what is
    raised during the sleep of the [except Exception] branch, if
    anything. *)
Record Pass := {
  in_try : option raised;
  in_handler : option raised
}.

(** What [main] leaves behind: the passes begun, the lines logged as
    errors, and the [time.sleep] arguments. *)
Record MainState := {
  main_passes : nat;
  main_errors : list string;
  main_slept : list Q
}.

(** [main] after the passes it was given: still going round, ended by its
    [break], or left by an exception. *)
Inductive main_result : Type :=
| MainLooping (s : MainState)
| MainStopped (s : MainState)
| MainEscaped (e : raised) (s : MainState).

(** The [while True] of [main]. *)
Fixpoint main (passes : list Pass) (s : MainState) : main_result :=
  match passes with
  | [] => MainLooping s
  | p :: rest =>
    let s1 := {| main_passes := S (main_passes s); main_errors := main_errors s;
                 main_slept := main_slept s |} in
    match in_try p with
    | None =>
      main rest {| main_passes := main_passes s1; main_errors := main_errors s1;
                   main_slept := main_slept s1 ++ [60%Q] |}
    | Some RKeyboardInterrupt => MainStopped s1
    | Some RSystemExit => MainEscaped RSystemExit s1
    | Some (RException msg) =>
      let s2 := {| main_passes := main_passes s1;
                   main_errors :=
                     main_errors s1 ++ [("Unexpected error in monitoring loop: " ++ msg)%string];
                   main_slept := main_slept s1 |} in
      match in_handler p with
      | Some e => MainEscaped e s2
      | None =>
        main rest {| main_passes := main_passes s2; main_errors := main_errors s2;
                     main_slept := main_slept s2 ++ [60%Q] |}
      end
    end
  end.

(** ** Verifying the connections ([TransactionMonitor._verify_connections]) *)

(** The loop under [# Check Bitcoin nodes], over the nodes' URLs:
    [has_result] is the test ['result' in info] on a reply.  The result
    is the lines logged and, if the loop was left by an exception, its
    message; [None] is the recursion limit hit inside [btc_rpc]. *)
Fixpoint verify_nodes {R : Type} (depth : nat) (net : Network R string)
    (has_result : R -> outcome bool string) (r : Router) (urls : list string)
    (sent : list Request) (log : list string)
    : option (list string * option string * list Request) :=
  match urls with
  | [] => Some (log, None, sent)
  | u :: rest =>
    if truthy u then
      match btc_rpc depth net r "getblockchaininfo" [] (Some u) sent with
      | None => None
      | Some (Raised e, sent1) => Some (log, Some e, sent1)
      | Some (Returned info, sent1) =>
        match has_result info with
        | Raised e => Some (log, Some e, sent1)
        | Returned true =>
          verify_nodes depth net has_result r rest sent1
                       (log ++ [("Connected to Bitcoin node: " ++ u)%string])
        | Returned false =>
          Some (log, Some ("Invalid response from node: " ++ u)%string, sent1)
        end
      end
    else verify_nodes depth net has_result r rest sent log
  end.

(** [_verify_connections()]: the Bitcoin nodes, then
    [web3.is_connected()], then the Redis [ping]; whatever is raised is
    logged and raised again. *)
Definition _verify_connections {R : Type} (depth : nat) (net : Network R string)
    (has_result : R -> outcome bool string) (is_connected : outcome bool string)
    (ping : outcome unit string) (r : Router) (sent : list Request)
    : option (list string * option string * list Request) :=
  match verify_nodes depth net has_result r (endpoint_urls r) sent [] with
  | None => None
  | Some (log, Some e, sent1) => Some (log, Some e, sent1)
  | Some (log, None, sent1) =>
    match is_connected with
    | Raised e => Some (log, Some e, sent1)
    | Returned false => Some (log, Some "Failed to connect to Ethereum node"%string, sent1)
    | Returned true =>
      let log1 := log ++ ["Connected to Ethereum node"%string] in
      match ping with
      | Raised e => Some (log1, Some e, sent1)
      | Returned _ => Some (log1 ++ ["Connected to Redis"%string], None, sent1)
      end
    end
  end.

(** A network on which only the primary answers. *)
Definition primary_only_net : Network NodeInfo string :=
  fun _ rq =>
    if String.eqb (req_url rq) "primary"
    then Returned {| info_connections := Some 12; info_blocks := Some 840000;
                     info_size := Some 5000 |}
    else Raised "connection refused"%string.

(** * Properties *)

Lemma Qgtb_true (x y : Q) : Qgtb x y = true <-> (y < x)%Q.
Proof.
  unfold Qgtb. rewrite negb_true_iff, <- not_true_iff_false, Qle_bool_iff.
  split; [apply Qnot_le_lt | apply Qlt_not_le].
Qed.

Lemma Qgtb_false (x y : Q) : Qgtb x y = false <-> (x <= y)%Q.
Proof.
  unfold Qgtb. rewrite negb_false_iff. apply Qle_bool_iff.
Qed.

Lemma Qltb_true (x y : Q) : Qltb x y = true <-> (x < y)%Q.
Proof. apply Qgtb_true. Qed.

Lemma Qltb_false (x y : Q) : Qltb x y = false <-> (y <= x)%Q.
Proof. apply Qgtb_false. Qed.

Lemma truthy_nonempty (s : string) : s <> ""%string -> truthy s = true.
Proof. destruct s; [congruence | reflexivity]. Qed.

(** ** Selection of the best node *)

Section Selection.

(** A fast node at or above one second of latency fails the guard. *)
Lemma slow_not_admitted (n : FastNode) :
  (1 <= latency n)%Q -> admitted n = false.
Proof.
  intros Hlat. unfold admitted.
  apply andb_false_iff. right. now apply Qltb_false.
Qed.

Lemma admitted_fast (n : FastNode) :
  admitted n = true -> 0 < connections n /\ (latency n < 1)%Q.
Proof.
  unfold admitted. intros H. apply andb_true_iff in H as [Hc Hl].
  split; [now apply Z.ltb_lt | now apply Qltb_true].
Qed.

(** The loop leaves the locals alone when no fast node passes the guard. *)
Lemma score_fast_nodes_none_admitted (nodes : list FastNode) (b : Best) :
  (forall n, In n nodes -> admitted n = false) ->
  score_fast_nodes nodes b = b.
Proof.
  unfold score_fast_nodes. revert b.
  induction nodes as [|n nodes IH]; intros b Hall; [reflexivity|].
  cbn [fold_left]. unfold score_fast_node at 2.
  rewrite (Hall n (or_introl eq_refl)).
  apply IH. intros m Hm. apply Hall. now right.
Qed.

(** Where the URL in [best_node] comes from: it was there before the
    loop, or a fast node that passed the guard put it there. *)
Lemma score_fast_nodes_origin (nodes : list FastNode) (b : Best) (u : string) :
  snd (score_fast_nodes nodes b) = Some u ->
  snd b = Some u \/ exists m, In m nodes /\ admitted m = true /\ url m = u.
Proof.
  unfold score_fast_nodes. revert b.
  induction nodes as [|n nodes IH]; intros b Hsel; [now left|].
  cbn [fold_left] in Hsel. apply IH in Hsel as [Hb | (m & Hm & Ha & Hu)].
  - unfold score_fast_node in Hb.
    destruct (admitted n) eqn:Hadm; [|now left].
    destruct (beats (node_score n) (fst b)); [|now left].
    cbn in Hb. right. exists n. repeat split; [now left | assumption | congruence].
  - right. exists m. repeat split; [now right | assumption | assumption].
Qed.

Lemma score_primary_origin (p : PrimaryNode) (u : string) :
  snd (score_primary p (None, None)) = Some u ->
  u = p_url p /\ 0 < p_connections p.
Proof.
  unfold score_primary. destruct (0 <? p_connections p) eqn:Hc; cbn; [|discriminate].
  intros [= <-]. split; [reflexivity | now apply Z.ltb_lt].
Qed.

(** Whatever [_update_best_node] stores is the URL of the primary with a
    connection, or of a fast node with a connection and less than one
    second of latency. *)
Lemma select_best_origin (sw : NodeSwarm) (u : string) :
  snd (select_best sw) = Some u ->
  (u = p_url (primary sw) /\ 0 < p_connections (primary sw))
  \/ exists m, In m (fast_nodes sw) /\ admitted m = true /\ url m = u.
Proof.
  unfold select_best. intros H.
  apply score_fast_nodes_origin in H as [H | H]; [left | now right].
  now apply score_primary_origin.
Qed.

Lemma map_injective_on_NoDup {A B : Type} (f : A -> B) (l : list A) (a b : A) :
  List.NoDup (map f l) -> In a l -> In b l -> f a = f b -> a = b.
Proof.
  induction l as [|x l IH]; cbn; intros Hnd Ha Hb Hf; [contradiction|].
  apply List.NoDup_cons_iff in Hnd as [Hx Hnd].
  destruct Ha as [-> | Ha], Hb as [-> | Hb]; try reflexivity.
  - exfalso. apply Hx. rewrite Hf. now apply in_map.
  - exfalso. apply Hx. rewrite <- Hf. now apply in_map.
  - now apply IH.
Qed.

End Selection.

(** C1, as the spec states it, fails: in the scenario of the three
    endpoints [_update_best_node] does not select secondary B. *)
Lemma scenario_does_not_select_B :
  best_node (_update_best_node {| node_swarm := scenario_swarm; best_node := None |})
  <> Some (url secondary_B).
Proof. vm_compute. discriminate. Qed.

(** C1, amended: in the scenario of the three endpoints, whatever was
    selected before, [_update_best_node] selects the primary, whose score
    of 62 is above the 42.56 of secondary B; secondary A fails the latency
    guard and B is the one fast node that passes it. *)
Theorem scenario_selects_primary (previous : option string) :
  best_node (_update_best_node {| node_swarm := scenario_swarm; best_node := previous |})
  = Some (p_url (primary scenario_swarm))
  /\ admitted secondary_A = false
  /\ Qltb (latency secondary_A) 1 = false
  /\ admitted secondary_B = true
  /\ (primary_score (primary scenario_swarm) == 62)%Q
  /\ (node_score secondary_B == 4256 # 100)%Q.
Proof.
  repeat split; vm_compute; reflexivity.
Qed.

(** C2, as the spec states it, fails: with the primary's connection count
    at zero and the only fast node above the latency bound,
    [_update_best_node] leaves [best_node] at [None], not at the
    primary. *)
Lemma startup_best_node_is_none :
  (forall n, In n (fast_nodes (node_swarm startup_router)) -> (1 <= latency n)%Q)
  /\ best_node (_update_best_node startup_router)
     <> Some (p_url (primary (node_swarm startup_router))).
Proof.
  split.
  - intros n [<- | []]. vm_compute. discriminate.
  - vm_compute. discriminate.
Qed.

(** C2, amended: if every fast node has a latency of one second or more,
    then after [_update_best_node] the best node is the primary when the
    primary reports at least one connection and [None] otherwise, whatever
    the scores; in both cases a call without an explicit node goes to the
    primary. *)
Theorem no_admitted_node_falls_back_to_primary (r : Router) :
  (forall n, In n (fast_nodes (node_swarm r)) -> (1 <= latency n)%Q) ->
  best_node (_update_best_node r)
  = (if 0 <? p_connections (primary (node_swarm r))
     then Some (p_url (primary (node_swarm r))) else None)
  /\ target_url (_update_best_node r) None = p_url (primary (node_swarm r)).
Proof.
  intros Hslow.
  assert (Hbest : best_node (_update_best_node r)
                  = if 0 <? p_connections (primary (node_swarm r))
                    then Some (p_url (primary (node_swarm r))) else None).
  { cbn. unfold select_best.
    rewrite score_fast_nodes_none_admitted.
    - unfold score_primary. now destruct (0 <? p_connections (primary (node_swarm r))).
    - intros n Hn. apply slow_not_admitted. now apply Hslow. }
  split; [exact Hbest|].
  unfold target_url. rewrite Hbest. cbn [py_or node_swarm _update_best_node].
  destruct (0 <? p_connections (primary (node_swarm r))); cbn [py_or]; [|reflexivity].
  now destruct (truthy (p_url (primary (node_swarm r)))).
Qed.

Lemma no_admitted_node_falls_back_to_primary_witness :
  best_node (_update_best_node startup_router) = None
  /\ target_url (_update_best_node startup_router) None = "http://node0:8332"%string.
Proof.
  apply (no_admitted_node_falls_back_to_primary startup_router).
  intros n [<- | []]. vm_compute. discriminate.
Defined.

(** C4: in a swarm whose endpoints have pairwise different URLs, a fast
    node whose latency exceeds one second is never the node
    [_update_best_node] selects, whatever its connections and mempool
    size. *)
Theorem slow_node_never_selected (r : Router) (n : FastNode) :
  List.NoDup (p_url (primary (node_swarm r)) :: map url (fast_nodes (node_swarm r))) ->
  In n (fast_nodes (node_swarm r)) ->
  (1 < latency n)%Q ->
  best_node (_update_best_node r) <> Some (url n).
Proof.
  intros Hurls Hn Hlat Hsel. cbn in Hsel.
  apply List.NoDup_cons_iff in Hurls as [Hprim Hfast].
  apply select_best_origin in Hsel as [[Hu _] | (m & Hm & Hadm & Hu)].
  - apply Hprim. rewrite <- Hu. now apply in_map.
  - assert (m = n) as -> by (eapply map_injective_on_NoDup; eassumption).
    apply admitted_fast in Hadm as [_ Hlt]. lra.
Qed.

Lemma slow_node_never_selected_witness :
  best_node (_update_best_node {| node_swarm := scenario_swarm; best_node := Some "A"%string |})
  <> Some (url secondary_A).
Proof.
  apply (slow_node_never_selected
           {| node_swarm := scenario_swarm; best_node := Some "A"%string |} secondary_A).
  - cbn. repeat (apply List.NoDup_cons; [cbn; intuition discriminate|]). apply List.NoDup_nil.
  - cbn. now left.
  - vm_compute. reflexivity.
Defined.

(** ** RPC calls fall back to the primary once *)

Section Fallback.

Context {R E : Type}.
Variable net : Network R E.
Variable r : Router.
Variables (method : string) (params : list string).

Let prim : string := p_url (primary (node_swarm r)).

Lemma target_url_explicit (u : string) :
  u <> ""%string -> target_url r (Some u) = u.
Proof.
  intros Hu. unfold target_url. cbn [py_or]. now rewrite truthy_nonempty.
Qed.

(** A call that goes to the primary sends one request and returns or
    raises what that request gives. *)
Lemma btc_rpc_on_primary (depth : nat) (node_url : option string) (sent : list Request) :
  target_url r node_url = prim ->
  btc_rpc (S depth) net r method params node_url sent
  = Some (net sent {| req_url := prim; req_method := method; req_params := params |},
          sent ++ [{| req_url := prim; req_method := method; req_params := params |}]).
Proof.
  intros Hurl. cbn [btc_rpc]. rewrite Hurl. fold prim.
  destruct (net sent _) as [resp | e]; [reflexivity|].
  now rewrite String.eqb_refl.
Qed.

End Fallback.

(** The fallback with a configured (non-empty) primary URL and room for
    two frames of recursion: a call whose first request fails is retried
    exactly once,
    against the primary, when its target was not the primary: two requests
    are sent and the call returns or raises what the retry gives, so a
    failing retry surfaces its error without any further request.  When the
    target was the primary itself, the one request is all that is sent and
    its error is raised. *)
Theorem btc_rpc_single_fallback {R E : Type} (net : Network R E) (r : Router)
    (method : string) (params : list string) (node_url : option string)
    (sent : list Request) (depth : nat) (e : E) :
  let prim := p_url (primary (node_swarm r)) in
  let first := {| req_url := target_url r node_url; req_method := method;
                  req_params := params |} in
  let retry := {| req_url := prim; req_method := method; req_params := params |} in
  prim <> ""%string ->
  net sent first = Raised e ->
  (target_url r node_url <> prim ->
     btc_rpc (S (S depth)) net r method params node_url sent
     = Some (net (sent ++ [first]) retry, sent ++ [first; retry])
     /\ forall e2, net (sent ++ [first]) retry = Raised e2 ->
        btc_rpc (S (S depth)) net r method params node_url sent
        = Some (Raised e2, sent ++ [first; retry]))
  /\ (target_url r node_url = prim ->
     btc_rpc (S (S depth)) net r method params node_url sent
     = Some (Raised e, sent ++ [first])).
Proof.
  intros prim first retry Hprim Hfail.
  assert (Hretry : target_url r node_url <> prim ->
     btc_rpc (S (S depth)) net r method params node_url sent
     = Some (net (sent ++ [first]) retry, sent ++ [first; retry])).
  { intros Hother.
    change (btc_rpc (S (S depth)) net r method params node_url sent)
      with (match net sent first with
            | Returned resp => Some (Returned resp, sent ++ [first])
            | Raised e0 =>
              if negb (String.eqb (target_url r node_url) prim) then
                btc_rpc (S depth) net r method params (Some prim) (sent ++ [first])
              else Some (Raised e0, sent ++ [first])
            end).
    rewrite Hfail.
    apply String.eqb_neq in Hother. rewrite Hother. cbn [negb].
    rewrite btc_rpc_on_primary by now apply target_url_explicit.
    now rewrite <- app_assoc. }
  split.
  - intros Hother. split; [now apply Hretry|].
    intros e2 He2. rewrite Hretry by assumption. now rewrite He2.
  - intros Hsame.
    rewrite btc_rpc_on_primary by assumption.
    fold prim. subst first. rewrite Hsame in Hfail. now rewrite Hfail, Hsame.
Qed.

Lemma btc_rpc_single_fallback_witness :
  let r := {| node_swarm := scenario_swarm; best_node := Some "B"%string |} in
  let rq u := {| req_url := u; req_method := "getblockcount"; req_params := [] |} in
  btc_rpc 2 all_fail r "getblockcount" [] None []
  = Some (Raised "timed out"%string, [rq "B"%string; rq "primary"%string])
  /\ btc_rpc 2 all_fail r "getblockcount" [] (Some "primary"%string) []
     = Some (Raised "timed out"%string, [rq "primary"%string]).
Proof.
  intros r rq. split.
  - apply (btc_rpc_single_fallback all_fail r "getblockcount" [] None [] 0
             "timed out"%string);
      [discriminate | reflexivity | discriminate | reflexivity].
  - apply (btc_rpc_single_fallback all_fail r "getblockcount" [] (Some "primary"%string)
             [] 0 "timed out"%string);
      [discriminate | reflexivity | reflexivity].
Defined.

(** With an empty primary URL the [or] chain of the retry falls through to
    [best_node] again and the call recurses until the limit: this is why
    the fallback is stated for a configured primary. *)
Lemma btc_rpc_empty_primary_recurses (depth : nat) (node_url : option string)
    (sent : list Request) (r : Router) (u : string) :
  p_url (primary (node_swarm r)) = ""%string ->
  best_node r = Some u -> u <> ""%string ->
  target_url r node_url = u ->
  btc_rpc depth all_fail r "getblockcount" [] node_url sent = None.
Proof.
  intros Hprim Hbest Hu. revert node_url sent.
  induction depth as [|depth IH]; intros node_url sent Hurl; [reflexivity|].
  cbn [btc_rpc]. unfold all_fail at 1. rewrite Hurl, Hprim.
  destruct u as [|c u]; [congruence|]. cbn [String.eqb negb].
  apply IH. unfold target_url. rewrite Hbest, Hprim. reflexivity.
Qed.

(** C3, on the code: with an empty primary URL the retry does not go to
    the primary.  For the router whose primary URL is empty and whose best
    node is B, a call without an explicit node goes to B, a non-primary
    endpoint; when every request fails, the retry is given the primary's
    empty URL, the [or] chain resolves it to B again, and so on: whatever
    the recursion limit, the call hits it instead of raising after one
    retry. *)
Theorem btc_rpc_retries_best_node_without_primary (depth : nat) :
  target_url unconfigured_primary_router None = "B"%string
  /\ target_url unconfigured_primary_router None
     <> p_url (primary (node_swarm unconfigured_primary_router))
  /\ target_url unconfigured_primary_router
       (Some (p_url (primary (node_swarm unconfigured_primary_router)))) = "B"%string
  /\ btc_rpc depth all_fail unconfigured_primary_router "getblockcount" [] None [] = None.
Proof.
  repeat split; try discriminate.
  apply (btc_rpc_empty_primary_recurses depth None [] unconfigured_primary_router "B"%string);
    (reflexivity || discriminate).
Qed.

(** ** The category table *)

Section CategoryTable.

Implicit Types (t : list (string * TypeStats)) (key : string).

Lemma lookup_update_type key (f : TypeStats -> TypeStats) t v :
  lookup_type key t = Some v ->
  lookup_type key (update_type key f t) = Some (f v).
Proof.
  induction t as [|[k w] t IH]; cbn; [discriminate|].
  destruct (String.eqb key k) eqn:Hk; cbn; rewrite Hk; [congruence | exact IH].
Qed.

Lemma update_type_absent key (f : TypeStats -> TypeStats) t :
  lookup_type key t = None -> update_type key f t = t.
Proof.
  induction t as [|[k w] t IH]; cbn; [reflexivity|].
  destruct (String.eqb key k); [discriminate|].
  intros H. now rewrite IH.
Qed.

Lemma sum_counts_cons key (v : TypeStats) t :
  sum_counts ((key, v) :: t) = count v + sum_counts t.
Proof. reflexivity. Qed.

Lemma sum_profits_cons key (v : TypeStats) t :
  sum_profits ((key, v) :: t) = (profit v + sum_profits t)%Q.
Proof. reflexivity. Qed.

Lemma sum_counts_add_count key t v :
  lookup_type key t = Some v ->
  sum_counts (update_type key add_count t) = sum_counts t + 1.
Proof.
  induction t as [|[k w] t IH]; cbn [lookup_type update_type]; [discriminate|].
  destruct (String.eqb key k); intros H; rewrite !sum_counts_cons.
  - cbn [add_count count]. lia.
  - rewrite IH by assumption. lia.
Qed.

Lemma sum_profits_add_count key t :
  sum_profits (update_type key add_count t) = sum_profits t.
Proof.
  induction t as [|[k w] t IH]; cbn [update_type]; [reflexivity|].
  destruct (String.eqb key k); rewrite !sum_profits_cons; [reflexivity|].
  now rewrite IH.
Qed.

Lemma sum_counts_add_profit key (p : Q) t :
  sum_counts (update_type key (add_profit p) t) = sum_counts t.
Proof.
  induction t as [|[k w] t IH]; cbn [update_type]; [reflexivity|].
  destruct (String.eqb key k); rewrite !sum_counts_cons; [reflexivity|].
  now rewrite IH.
Qed.

Lemma sum_profits_add_profit key (p : Q) t v :
  lookup_type key t = Some v ->
  (sum_profits (update_type key (add_profit p) t) == sum_profits t + p)%Q.
Proof.
  induction t as [|[k w] t IH]; cbn [lookup_type update_type]; [discriminate|].
  destruct (String.eqb key k); intros H; rewrite !sum_profits_cons.
  - cbn [add_profit profit]. ring.
  - rewrite IH by assumption. ring.
Qed.

End CategoryTable.

(** ** What one execution does to the metrics *)

Section Execution.

Variable h : Handlers.

Implicit Types (m : Monitor) (o : Opportunity) (elapsed : Q).

Lemma execute_keeps_queue elapsed o m :
  opportunity_queue (_execute_opportunity h elapsed o m) = opportunity_queue m
  /\ tasks_done (_execute_opportunity h elapsed o m) = tasks_done m.
Proof.
  unfold _execute_opportunity.
  destruct (lookup_type _ _); [|now split].
  destruct (dispatch h o) as [[p | e] |]; now split.
Qed.

(** [_execute_opportunity] never touches [opportunities_found]. *)
Lemma execute_keeps_found elapsed o m :
  opportunities_found (performance_metrics (_execute_opportunity h elapsed o m))
  = opportunities_found (performance_metrics m).
Proof.
  unfold _execute_opportunity.
  destruct (lookup_type _ _); [|reflexivity].
  destruct (dispatch h o) as [[p | e] |]; cbn; try reflexivity.
  unfold record_result. now destruct (Qgtb p 0).
Qed.

(** It raises the sum of the category counts by one for a known category
    and leaves it alone for an unknown one. *)
Lemma execute_counts elapsed o m :
  sum_counts (opportunity_types (performance_metrics (_execute_opportunity h elapsed o m)))
  = sum_counts (opportunity_types (performance_metrics m))
    + match lookup_type (type o) (opportunity_types (performance_metrics m)) with
      | Some _ => 1
      | None => 0
      end.
Proof.
  unfold _execute_opportunity.
  destruct (lookup_type _ _) as [v|] eqn:Hv; cbn; [|lia].
  destruct (dispatch h o) as [[p | e] |]; cbn;
    try (now apply sum_counts_add_count with v).
  unfold record_result. destruct (Qgtb p 0); cbn.
  - rewrite sum_counts_add_profit. now apply sum_counts_add_count with v.
  - now apply sum_counts_add_count with v.
Qed.

(** Whatever it adds to a category's profit it adds to [total_profit]. *)
Lemma execute_keeps_balance elapsed o m :
  (total_profit (performance_metrics (_execute_opportunity h elapsed o m))
   - sum_profits (opportunity_types (performance_metrics (_execute_opportunity h elapsed o m)))
   == total_profit (performance_metrics m)
      - sum_profits (opportunity_types (performance_metrics m)))%Q.
Proof.
  unfold _execute_opportunity.
  destruct (lookup_type _ _) as [v|] eqn:Hv; cbn; [|reflexivity].
  destruct (dispatch h o) as [[p | e] |]; cbn;
    try (rewrite sum_profits_add_count; reflexivity).
  unfold record_result. destruct (Qgtb p 0); cbn.
  - rewrite sum_profits_add_profit with (v := add_count v)
      by now apply lookup_update_type.
    rewrite sum_profits_add_count. ring.
  - rewrite sum_profits_add_count. reflexivity.
Qed.

(** The items held by the queue and by the producers blocked on it. *)
Let backlog (m : Monitor) : Z :=
  Z.of_nat (length (items (chan_queue (opportunity_queue m))))
  + Z.of_nat (length (chan_blocked (opportunity_queue m))).

Let executed (m : Monitor) : Z :=
  sum_counts (opportunity_types (performance_metrics m)).

Let found (m : Monitor) : Z := opportunities_found (performance_metrics m).

Let balance (m : Monitor) : Q :=
  (total_profit (performance_metrics m)
   - sum_profits (opportunity_types (performance_metrics m)))%Q.

Lemma chan_put_backlog {A : Type} (x : A) (c : Channel A) :
  (length (items (chan_queue (chan_put x c))) + length (chan_blocked (chan_put x c))
   = S (length (items (chan_queue c)) + length (chan_blocked c)))%nat.
Proof.
  unfold chan_put, put. destruct (full (chan_queue c)); cbn;
    rewrite length_app; cbn; lia.
Qed.

Lemma chan_resume_backlog {A : Type} (i : nat) (c : Channel A) :
  (length (items (chan_queue (chan_resume i c))) + length (chan_blocked (chan_resume i c))
   = length (items (chan_queue c)) + length (chan_blocked c))%nat.
Proof.
  unfold chan_resume, put.
  destruct (chan_blocked c !! i) as [x|] eqn:Hx; [|reflexivity].
  destruct (full (chan_queue c)); cbn; [reflexivity|].
  rewrite length_app, length_delete by eauto.
  apply lookup_lt_Some in Hx. cbn. lia.
Qed.

Lemma step_found m (e : event) :
  found (step h m e) = found m + Z.of_nat (length (detected [e])).
Proof.
  unfold found. destruct e as [[opp|] | i | elapsed]; cbn; try lia.
  - destruct (truthy (type opp)); cbn; lia.
  - unfold worker_turn.
    destruct (chan_get (opportunity_queue m)) as [[o|] c]; cbn; [|lia].
    rewrite execute_keeps_found. cbn. lia.
Qed.

Lemma step_balance m (e : event) :
  (balance (step h m e) == balance m + sum_potential (detected [e]))%Q.
Proof.
  unfold balance.
  destruct e as [[opp|] | i | elapsed]; cbn; unfold sum_potential; cbn [fold_right];
    try ring.
  - destruct (truthy (type opp)); cbn; ring.
  - unfold worker_turn.
    destruct (chan_get (opportunity_queue m)) as [[o|] c]; cbn; [|ring].
    rewrite execute_keeps_balance. cbn. ring.
Qed.

Lemma step_backlog m (e : event) :
  executed m + backlog m <= found m ->
  executed (step h m e) + backlog (step h m e) <= found (step h m e).
Proof.
  unfold executed, backlog, found. intros Hinv.
  destruct e as [[opp|] | i | elapsed]; cbn; try assumption.
  - destruct (truthy (type opp)); cbn; [|assumption].
    pose proof (chan_put_backlog opp (opportunity_queue m)). lia.
  - pose proof (chan_resume_backlog i (opportunity_queue m)). lia.
  - unfold worker_turn, chan_get, get.
    destruct (items (chan_queue (opportunity_queue m))) as [|o rest] eqn:Hitems;
      cbn; [now rewrite Hitems|].
    destruct (execute_keeps_queue elapsed o
      {| performance_metrics := performance_metrics m;
         opportunity_queue :=
           {| chan_queue := {| maxsize := maxsize (chan_queue (opportunity_queue m));
                               items := rest |};
              chan_blocked := chan_blocked (opportunity_queue m) |};
         error_log := error_log m; tasks_done := tasks_done m |}) as [-> _].
    rewrite execute_counts, execute_keeps_found. cbn in *.
    destruct (lookup_type _ _); lia.
Qed.

Lemma sum_potential_app (l1 l2 : list Opportunity) :
  (sum_potential (l1 ++ l2) == sum_potential l1 + sum_potential l2)%Q.
Proof.
  induction l1 as [|o l1 IH]; [unfold sum_potential; cbn; ring|].
  change (sum_potential ((o :: l1) ++ l2))
    with (potential_profit o + sum_potential (l1 ++ l2))%Q.
  change (sum_potential (o :: l1)) with (potential_profit o + sum_potential l1)%Q.
  rewrite IH. ring.
Qed.

Lemma detected_cons (e : event) (events : list event) :
  detected (e :: events) = detected [e] ++ detected events.
Proof. unfold detected. cbn. now rewrite app_nil_r. Qed.

Lemma run_found (events : list event) m :
  found (run h events m) = found m + Z.of_nat (length (detected events)).
Proof.
  revert m. induction events as [|e events IH]; intros m; [unfold found; cbn; lia|].
  change (run h (e :: events) m) with (run h events (step h m e)).
  rewrite IH, step_found, (detected_cons e events), length_app. lia.
Qed.

Lemma run_balance (events : list event) m :
  (balance (run h events m) == balance m + sum_potential (detected events))%Q.
Proof.
  revert m. induction events as [|e events IH]; intros m;
    [unfold balance, sum_potential; cbn; ring|].
  change (run h (e :: events) m) with (run h events (step h m e)).
  rewrite IH, step_balance, (detected_cons e events), sum_potential_app. ring.
Qed.

Lemma run_backlog (events : list event) m :
  executed m + backlog m <= found m ->
  executed (run h events m) + backlog (run h events m) <= found (run h events m).
Proof.
  revert m. induction events as [|e events IH]; intros m Hinv; [exact Hinv|].
  change (run h (e :: events) m) with (run h events (step h m e)).
  apply IH. now apply step_backlog.
Qed.

(** C5, amended: after every sequence of complete detection, resumed-put
    and worker steps from the monitor's initial state,
    [opportunities_found] is the number of detected opportunities; the sum
    of the category counts, plus the opportunities still queued or held by
    a blocked producer, is at most [opportunities_found]; and
    [total_profit] is the sum of the category profits plus the potential
    profit of every detected opportunity. *)
Theorem totals_follow_detection_and_execution (events : list event) (now : Q) :
  let m := run h events (new_monitor now) in
  let pm := performance_metrics m in
  opportunities_found pm = Z.of_nat (length (detected events))
  /\ sum_counts (opportunity_types pm)
     + Z.of_nat (length (items (chan_queue (opportunity_queue m))))
     + Z.of_nat (length (chan_blocked (opportunity_queue m)))
     <= opportunities_found pm
  /\ (total_profit pm
      == sum_profits (opportunity_types pm) + sum_potential (detected events))%Q.
Proof.
  cbv zeta. split; [|split].
  - pose proof (run_found events (new_monitor now)) as H. unfold found in H.
    rewrite H. cbn. lia.
  - pose proof (run_backlog events (new_monitor now)) as H.
    unfold executed, backlog, found in H.
    assert (H0 : sum_counts (opportunity_types (performance_metrics (new_monitor now)))
                 + (Z.of_nat (length (items (chan_queue (opportunity_queue (new_monitor now)))))
                    + Z.of_nat (length (chan_blocked (opportunity_queue (new_monitor now)))))
                 <= opportunities_found (performance_metrics (new_monitor now)))
      by (vm_compute; discriminate).
    specialize (H H0). lia.
  - pose proof (run_balance events (new_monitor now)) as H. unfold balance in H.
    change (sum_profits (opportunity_types (performance_metrics (new_monitor now))))
      with (0 + (0 + (0 + (0 + (0 + (0 + (0 + 0)))))))%Q in H.
    cbn in H.
    assert (Hb : (total_profit (performance_metrics (run h events (new_monitor now)))
                  - sum_profits (opportunity_types (performance_metrics (run h events (new_monitor now))))
                  == sum_potential (detected events))%Q).
    { rewrite H. ring. }
    lra.
Qed.

End Execution.

(** C5, as the spec states it, fails.  After one detection the queue holds
    the opportunity and [opportunities_found] is ahead of the category
    counts; after the worker has executed it, with nothing queued or
    blocked any more, the counts agree but [total_profit] holds the
    potential and the realised profit while the category holds the realised
    profit only. *)
Lemma category_sums_differ_from_totals :
  let m1 := run paying_handlers [Found (Some arbitrage_opp)] (new_monitor 0) in
  let m2 := run paying_handlers [Found (Some arbitrage_opp); WorkerTurn 1] (new_monitor 0) in
  sum_counts (opportunity_types (performance_metrics m1))
    <> opportunities_found (performance_metrics m1)
  /\ items (chan_queue (opportunity_queue m2)) = []
  /\ chan_blocked (opportunity_queue m2) = []
  /\ ~ (sum_profits (opportunity_types (performance_metrics m2))
        == total_profit (performance_metrics m2))%Q.
Proof.
  cbv zeta. repeat split.
  - vm_compute. discriminate.
  - intros H. vm_compute in H. discriminate H.
Qed.

(** The optimizer's own metrics go the other way: [analyze_transaction]
    raises a category's count and profit and never its global totals. *)
Lemma analyze_transaction_keeps_totals (elapsed : Q) (results : list (option Opportunity))
    (pm : PerformanceMetrics) (o : Opportunity) :
  fst (analyze_transaction elapsed results pm) = Some o ->
  let pm' := snd (analyze_transaction elapsed results pm) in
  opportunities_found pm' = opportunities_found pm
  /\ total_profit pm' = total_profit pm
  /\ sum_counts (opportunity_types pm') = sum_counts (opportunity_types pm) + 1.
Proof.
  unfold analyze_transaction.
  destruct (first_opportunity results) as [o'|]; [|discriminate].
  destruct (lookup_type (type o') (opportunity_types pm)) as [v|] eqn:Hv; [|discriminate].
  cbn. intros _. repeat split.
  rewrite sum_counts_add_profit. now apply sum_counts_add_count with v.
Qed.

(** ** The worker loop *)

Section Worker.

Variable h : Handlers.

Lemma worker_turn_progress (elapsed : Q) (m : Monitor) :
  items (chan_queue (opportunity_queue (worker_turn h elapsed m)))
  = tl (items (chan_queue (opportunity_queue m)))
  /\ tasks_done (worker_turn h elapsed m)
     = (tasks_done m + Nat.min 1 (length (items (chan_queue (opportunity_queue m)))))%nat.
Proof.
  unfold worker_turn, chan_get, get.
  destruct (items (chan_queue (opportunity_queue m))) as [|o rest] eqn:Hitems.
  - rewrite Hitems. cbn. split; [reflexivity | lia].
  - cbn [tasks_done opportunity_queue].
    match goal with |- context [_execute_opportunity h elapsed o ?m0] =>
      destruct (execute_keeps_queue h elapsed o m0) as [-> ->] end.
    cbn. split; [reflexivity | lia].
Qed.

(** The loop handles one queued item per iteration until the queue is
    empty, whatever the handlers do. *)
Lemma process_queue_progress (turns : list Q) (m : Monitor) :
  tasks_done (_process_opportunity_queue h turns m)
  = (tasks_done m
     + Nat.min (length turns) (length (items (chan_queue (opportunity_queue m)))))%nat.
Proof.
  unfold _process_opportunity_queue. revert m.
  induction turns as [|elapsed turns IH]; intros m; [cbn; lia|].
  cbn [fold_left]. rewrite IH.
  destruct (worker_turn_progress elapsed m) as [-> ->].
  destruct (items (chan_queue (opportunity_queue m))); cbn [tl length]; lia.
Qed.

End Worker.

(** C7, as the spec states it, fails in one part: the failure of a handler
    is caught and the worker goes on, but no failure sample is recorded.
    With handlers that raise, the success and latency buffers are as empty
    after the item as before it. *)
Lemma failing_item_records_no_sample :
  dispatch failing_handlers arbitrage_opp = Some (Raised "execution reverted"%string)
  /\ items (chan_queue (opportunity_queue one_queued)) = [arbitrage_opp]
  /\ success_rate (performance_metrics (worker_turn failing_handlers 1 one_queued)) = []
  /\ analysis_latency (performance_metrics (worker_turn failing_handlers 1 one_queued)) = [].
Proof. repeat split. Qed.

(** C7, amended: when the handler of a dequeued opportunity of a known
    category raises, the failure is caught inside that iteration: the
    category's count is raised and one error line is logged, while the
    success and latency buffers and the totals stay as they were; the item
    is marked done and the same worker goes on with the next iteration, so
    that every queued item is handled. *)
Theorem failing_handler_is_logged_and_worker_continues (h : Handlers) (elapsed : Q)
    (turns : list Q) (m : Monitor) (o : Opportunity) (rest : list Opportunity)
    (e : string) :
  items (chan_queue (opportunity_queue m)) = o :: rest ->
  lookup_type (type o) (opportunity_types (performance_metrics m)) <> None ->
  dispatch h o = Some (Raised e) ->
  let pm := performance_metrics m in
  let m' := worker_turn h elapsed m in
  performance_metrics m'
    = with_types pm (update_type (type o) add_count (opportunity_types pm))
  /\ success_rate (performance_metrics m') = success_rate pm
  /\ analysis_latency (performance_metrics m') = analysis_latency pm
  /\ total_profit (performance_metrics m') = total_profit pm
  /\ error_log m' = error_log m ++ [("Opportunity execution error: " ++ e)%string]
  /\ items (chan_queue (opportunity_queue m')) = rest
  /\ tasks_done m' = S (tasks_done m)
  /\ _process_opportunity_queue h (elapsed :: turns) m
     = _process_opportunity_queue h turns m'
  /\ tasks_done (_process_opportunity_queue h (elapsed :: turns) m)
     = (tasks_done m + Nat.min (S (length turns)) (S (length rest)))%nat.
Proof.
  intros Hitems Hknown Hraise pm m'. fold pm in Hknown.
  assert (Hm' : m' =
    {| performance_metrics :=
         with_types pm (update_type (type o) add_count (opportunity_types pm));
       opportunity_queue :=
         {| chan_queue := {| maxsize := maxsize (chan_queue (opportunity_queue m));
                             items := rest |};
            chan_blocked := chan_blocked (opportunity_queue m) |};
       error_log := error_log m ++ [("Opportunity execution error: " ++ e)%string];
       tasks_done := S (tasks_done m) |}).
  { subst m'. unfold worker_turn, chan_get, get. rewrite Hitems.
    unfold _execute_opportunity. cbn [performance_metrics].
    fold pm. destruct (lookup_type (type o) (opportunity_types pm)); [|congruence].
    rewrite Hraise. reflexivity. }
  repeat split; try (rewrite Hm'; reflexivity).
  rewrite process_queue_progress, Hitems. reflexivity.
Qed.

Lemma failing_handler_is_logged_and_worker_continues_witness :
  let m' := worker_turn failing_handlers 1 one_queued in
  count <$> lookup_type "arbitrage" (opportunity_types (performance_metrics m')) = Some 1
  /\ success_rate (performance_metrics m') = []
  /\ error_log m' = ["Opportunity execution error: execution reverted"%string]
  /\ tasks_done m' = 1%nat.
Proof.
  destruct (failing_handler_is_logged_and_worker_continues failing_handlers 1 []
              one_queued arbitrage_opp [] "execution reverted"%string)
    as (Hpm & Hsucc & _ & _ & Hlog & _ & Hdone & _).
  - reflexivity.
  - vm_compute. discriminate.
  - reflexivity.
  - cbv zeta. rewrite Hpm. repeat split; assumption.
Defined.

(** ** The bounded queue keeps its bound, its items and their order *)

Section BoundedQueue.

Context {A : Type}.

Implicit Types (h : History A) (q : Queue A) (op : queue_op A).

Lemma not_full_room q :
  (0 < maxsize q)%nat -> full q = false -> (length (items q) < maxsize q)%nat.
Proof.
  unfold full. intros Hpos Hfull.
  apply andb_false_iff in Hfull as [H | H].
  - apply Nat.ltb_ge in H. lia.
  - now apply Nat.leb_gt in H.
Qed.

Lemma queue_step_well_formed (n : nat) h op :
  (0 < n)%nat -> well_formed n h -> well_formed n (queue_step h op).
Proof.
  intros Hpos (Hmax & Hlen & Hfifo). unfold well_formed.
  destruct op as [x | i |]; cbn [queue_step chan enqueued dequeued].
  - unfold chan_put, put.
    destruct (full (chan_queue (chan h))) eqn:Hfull; cbn.
    + now repeat split.
    + apply not_full_room in Hfull; [|lia].
      rewrite length_app, Hfifo, <- app_assoc. cbn. repeat split; [assumption | lia].
  - unfold chan_resume, put.
    destruct (chan_blocked (chan h) !! i) as [x|]; [|now repeat split].
    destruct (full (chan_queue (chan h))) eqn:Hfull; cbn.
    + now repeat split.
    + apply not_full_room in Hfull; [|lia].
      rewrite length_app, Hfifo, <- app_assoc. cbn. repeat split; [assumption | lia].
  - unfold chan_get, get.
    destruct (items (chan_queue (chan h))) as [|x rest] eqn:Hitems; cbn.
    + rewrite Hitems. now repeat split.
    + cbn in Hlen. rewrite Hfifo, <- app_assoc. cbn. repeat split; [assumption | lia].
Qed.

(** Every item handed to [put] is, from then on, in the queue, with a
    blocked producer, or already dequeued. *)
Lemma queue_step_conserves h op :
  submitted [op] ++ enqueued h ++ chan_blocked (chan h)
  ≡ₚ enqueued (queue_step h op) ++ chan_blocked (chan (queue_step h op)).
Proof.
  destruct op as [x | i |]; cbn [queue_step chan enqueued dequeued submitted flat_map app].
  - unfold chan_put, put.
    destruct (full (chan_queue (chan h))); cbn.
    + rewrite app_assoc. apply Permutation_cons_append.
    + rewrite <- app_assoc. cbn. apply Permutation_middle.
  - unfold chan_resume, put.
    destruct (chan_blocked (chan h) !! i) as [x|] eqn:Hx; [|reflexivity].
    destruct (full (chan_queue (chan h))); cbn; [reflexivity|].
    rewrite <- app_assoc. cbn.
    rewrite (delete_Permutation _ _ _ Hx) at 1. reflexivity.
  - unfold chan_get, get.
    destruct (items (chan_queue (chan h))); reflexivity.
Qed.

Lemma queue_run_well_formed (n : nat) (ops : list (queue_op A)) h :
  (0 < n)%nat -> well_formed n h -> well_formed n (queue_run ops h).
Proof.
  intros Hpos. unfold queue_run. revert h.
  induction ops as [|op ops IH]; intros h Hwf; [exact Hwf|].
  cbn [fold_left]. apply IH. now apply queue_step_well_formed.
Qed.

Lemma submitted_cons op (ops : list (queue_op A)) :
  submitted (op :: ops) = submitted [op] ++ submitted ops.
Proof. now destruct op. Qed.

Lemma queue_run_conserves (ops : list (queue_op A)) h :
  submitted ops ++ enqueued h ++ chan_blocked (chan h)
  ≡ₚ enqueued (queue_run ops h) ++ chan_blocked (chan (queue_run ops h)).
Proof.
  unfold queue_run. revert h.
  induction ops as [|op ops IH]; intros h; [reflexivity|].
  cbn [fold_left]. rewrite <- IH, <- queue_step_conserves.
  rewrite (submitted_cons op ops), !app_assoc. apply Permutation_app_tail, Permutation_app_tail.
  apply Permutation_app_comm.
Qed.

Lemma put_full_blocks q (x : A) : full q = true -> put q x = None.
Proof. unfold put. now intros ->. Qed.

End BoundedQueue.

(** C8: the opportunity queue is created with capacity 1000 and, after any
    sequence of [put], resumed-[put] and [get] calls, holds at most 1000
    items; the items come out in the order their [put] completed, the
    [i]-th item dequeued being the [i]-th enqueued; every item handed to
    [put] is dequeued, queued, or still with its blocked producer; and a
    [put] on the full queue blocks: the queue stays as it is and the
    producer keeps the item. *)
Theorem opportunity_queue_is_bounded_fifo (now : Q) (ops : list (queue_op Opportunity)) :
  let h := queue_run ops (fresh_history now) in
  let q := chan_queue (chan h) in
  maxsize q = 1000%nat
  /\ (length (items q) <= 1000)%nat
  /\ enqueued h = dequeued h ++ items q
  /\ (forall (i : nat) (x : Opportunity),
        dequeued h !! i = Some x -> enqueued h !! i = Some x)
  /\ submitted ops ≡ₚ dequeued h ++ items q ++ chan_blocked (chan h)
  /\ (forall x : Opportunity, full q = true ->
        put q x = None
        /\ chan_queue (chan_put x (chan h)) = q
        /\ chan_blocked (chan_put x (chan h)) = chan_blocked (chan h) ++ [x]).
Proof.
  intros h q.
  assert (Hwf : well_formed 1000 h).
  { apply queue_run_well_formed; [lia|]. repeat split. cbn. lia. }
  destruct Hwf as (Hmax & Hlen & Hfifo).
  repeat split; try assumption.
  - intros i x Hx. fold q in Hfifo. rewrite Hfifo. now apply lookup_app_l_Some.
  - pose proof (queue_run_conserves ops (fresh_history now)) as Hcons.
    cbn [fresh_history enqueued chan chan_blocked opportunity_queue new_monitor new_channel]
      in Hcons.
    rewrite app_nil_r in Hcons. fold h in Hcons. rewrite Hcons, Hfifo.
    now rewrite <- app_assoc.
  - now apply put_full_blocks.
  - unfold chan_put. now rewrite put_full_blocks.
  - unfold chan_put. now rewrite put_full_blocks.
Qed.

Lemma opportunity_queue_is_bounded_fifo_witness :
  let h := queue_run (replicate 1000 (QPut arbitrage_opp)) (fresh_history 0) in
  put (chan_queue (chan h)) arbitrage_opp = None
  /\ chan_blocked (chan_put arbitrage_opp (chan h)) = chan_blocked (chan h) ++ [arbitrage_opp].
Proof.
  intros h.
  destruct (opportunity_queue_is_bounded_fifo 0 (replicate 1000 (QPut arbitrage_opp)))
    as (_ & _ & _ & _ & _ & Hfull).
  destruct (Hfull arbitrage_opp) as (Hput & _ & Hblocked).
  - vm_compute. reflexivity.
  - split; [exact Hput | exact Hblocked].
Defined.

(** ** Flushing twice *)

Section Flush.

Variables (current_time : Q) (hset : Snapshot -> outcome unit string).

(** With no latency sample there is nothing to flush. *)
Lemma flush_empty (pm : PerformanceMetrics) :
  analysis_latency pm = [] ->
  _update_performance_metrics current_time hset pm = (pm, NothingToFlush).
Proof. unfold _update_performance_metrics. now intros ->. Qed.

(** The three ways a flush can end. *)
Lemma flush_cases (pm : PerformanceMetrics) :
  (analysis_latency pm = []
   /\ _update_performance_metrics current_time hset pm = (pm, NothingToFlush))
  \/ (exists msg,
        _update_performance_metrics current_time hset pm = (pm, FlushFailed msg))
  \/ (exists snap,
        _update_performance_metrics current_time hset pm
        = (reset_samples pm, Published snap)).
Proof.
  unfold _update_performance_metrics.
  destruct (analysis_latency pm) as [|l ls]; [now left|]. right.
  destruct (success_rate pm) as [|b bs]; [left; eauto|].
  destruct (Qeq_bool _ _); [left; eauto|].
  destruct (hset _) as [[] | e]; [right | left]; eauto.
Qed.

End Flush.

(** C6, as the spec states it, fails: when Redis refuses the snapshot, the
    flush keeps the samples, and a second flush right after it still finds
    both buffers filled. *)
Lemma flush_twice_with_redis_down :
  let pm1 := fst (_update_performance_metrics 30 redis_down sampled_metrics) in
  let pm2 := fst (_update_performance_metrics 30 redis_down pm1) in
  analysis_latency pm2 = [1 # 2] /\ success_rate pm2 = [1].
Proof. split; reflexivity. Qed.

(** C6, amended: a flush never alters the cumulative totals.  If the first
    flush stores its snapshot, a second flush with no activity in between
    finds nothing to flush: it stores nothing, both sample buffers are
    empty and the totals are those before the first flush.  A flush on an
    empty latency buffer changes nothing.  A flush that fails, as when
    Redis does not store the snapshot, keeps the samples. *)
Theorem flush_twice_on_empty_delta (t1 t2 : Q)
    (hset1 hset2 : Snapshot -> outcome unit string) (pm : PerformanceMetrics) :
  let r1 := _update_performance_metrics t1 hset1 pm in
  let r2 := _update_performance_metrics t2 hset2 (fst r1) in
  (opportunities_found (fst r1) = opportunities_found pm
   /\ total_profit (fst r1) = total_profit pm
   /\ opportunity_types (fst r1) = opportunity_types pm)
  /\ (forall snap, snd r1 = Published snap ->
        r2 = (fst r1, NothingToFlush)
        /\ analysis_latency (fst r2) = []
        /\ success_rate (fst r2) = []
        /\ opportunities_found (fst r2) = opportunities_found pm
        /\ total_profit (fst r2) = total_profit pm)
  /\ (analysis_latency pm = [] ->
        r1 = (pm, NothingToFlush) /\ r2 = (pm, NothingToFlush))
  /\ (forall msg, snd r1 = FlushFailed msg -> fst r1 = pm).
Proof.
  cbv zeta.
  destruct (flush_cases t1 hset1 pm) as [[Hlat Hr] | [[msg Hr] | [snap Hr]]];
    rewrite Hr; cbn [fst snd].
  - rewrite (flush_empty t2 hset2 pm Hlat). repeat split; discriminate.
  - repeat split; try discriminate;
      match goal with
      | H : analysis_latency pm = [] |- _ =>
        rewrite (flush_empty t1 hset1 pm H) in Hr; discriminate Hr
      end.
  - rewrite (flush_empty t2 hset2 (reset_samples pm) eq_refl).
    repeat split; try discriminate;
      match goal with
      | H : analysis_latency pm = [] |- _ =>
        rewrite (flush_empty t1 hset1 pm H) in Hr; discriminate Hr
      end.
Qed.

Lemma flush_twice_on_empty_delta_witness :
  let r1 := _update_performance_metrics 30 redis_up sampled_metrics in
  let r2 := _update_performance_metrics 31 redis_up (fst r1) in
  snd r2 = NothingToFlush
  /\ analysis_latency (fst r2) = []
  /\ success_rate (fst r2) = []
  /\ opportunities_found (fst r2) = 1
  /\ total_profit (fst r2) = 2 # 100.
Proof.
  intros r1 r2.
  destruct (flush_twice_on_empty_delta 30 31 redis_up redis_up sampled_metrics)
    as (_ & Hpub & _ & _).
  destruct (Hpub _ eq_refl) as (Hr2 & Hlat & Hsucc & Hfound & Htotal).
  subst r2 r1. rewrite Hr2 in *. repeat split; assumption.
Defined.

(** ** The monitoring loop *)

(** As long as the [rpush] of the [except] branch succeeds and nothing but
    an [Exception] is raised, the loop goes round once per pass, whatever
    the passes raise. *)
Lemma start_monitoring_keeps_looping (ticks : list Tick) (s : LoopState) :
  (forall t, In t ticks ->
     tick_rpush t = None /\ forall msg, tick_body t <> Some (Interrupt msg)) ->
  exists s', start_monitoring ticks s = Looping s'
             /\ passes s' = (passes s + length ticks)%nat.
Proof.
  revert s. induction ticks as [|t ticks IH]; intros s Hok.
  - exists s. split; [reflexivity | cbn; lia].
  - destruct (Hok t (or_introl eq_refl)) as [Hpush Hbody].
    assert (Hrest : forall t', In t' ticks ->
              tick_rpush t' = None /\ forall msg, tick_body t' <> Some (Interrupt msg))
      by (intros t' Ht'; apply Hok; now right).
    cbn [start_monitoring]. destruct (tick_body t) as [[msg | msg]|].
    + rewrite Hpush.
      edestruct IH as (s' & -> & Hpasses); [exact Hrest|].
      exists s'. split; [reflexivity|]. rewrite Hpasses. cbn. lia.
    + now destruct (Hbody msg).
    + edestruct IH as (s' & -> & Hpasses); [exact Hrest|].
      exists s'. split; [reflexivity|]. rewrite Hpasses. cbn. lia.
Qed.

(** C9, on the code: an error raised during a pass while Redis is
    unreachable ends the loop.  The [except] branch logs the error and
    then calls [rpush], whose own exception leaves the [while True]: the
    first pass is the last, nothing is pushed, no pause is taken and the
    quiet pass that would follow never runs. *)
Theorem start_monitoring_ends_on_redis_outage :
  start_monitoring [redis_outage; quiet_tick] loop_start
  = Escaped (Exception "Error 111 connecting to localhost:6379")
      {| passes := 1;
         logged := ["Enhanced monitoring error: Error 111 connecting to localhost:6379"%string];
         pushed := [];
         slept := [] |}.
Proof. reflexivity. Qed.

(** ** The alert cooldown *)

Section Cooldown.

Implicit Types (m : gmap string Q) (ty : string) (t : Q).

(** An alert for another type leaves the type's last alert time alone. *)
Lemma should_alert_other t ty ty' m :
  ty <> ty' -> is_Some (m !! ty') ->
  (should_alert t ty m).2 !! ty' = m !! ty'.
Proof.
  intros Hne _. unfold should_alert.
  destruct (m !! ty) eqn:Hty; destruct (Qgtb _ _); cbn [snd];
    now rewrite ?lookup_insert_ne by assumption.
Qed.

(** A call for a type with a recorded time [v] answers [True] only when
    more than the cooldown has passed since [v], and then records the
    call's time; otherwise [v] stays. *)
Lemma should_alert_recorded t ty m (v : Q) :
  m !! ty = Some v ->
  ((should_alert t ty m).1 = true /\ (v + alert_cooldown < t)%Q
   /\ (should_alert t ty m).2 !! ty = Some t)
  \/ ((should_alert t ty m).1 = false /\ (should_alert t ty m).2 !! ty = Some v).
Proof.
  intros Hv. unfold should_alert. cbv zeta. rewrite !Hv. cbn [default from_option id].
  destruct (Qgtb (t - v) alert_cooldown) eqn:Hgt; cbn [fst snd].
  - left. apply Qgtb_true in Hgt. rewrite lookup_insert_eq.
    repeat split. lra.
  - right. now split.
Qed.

(** A call that answers [True] records its time. *)
Lemma should_alert_true t ty m :
  (should_alert t ty m).1 = true -> (should_alert t ty m).2 !! ty = Some t.
Proof.
  unfold should_alert.
  destruct (Qgtb _ _); cbn [fst snd]; [|discriminate].
  intros _. apply lookup_insert_eq.
Qed.

(** Once a time of at least [b] is recorded for a type, every later call
    for it that answers [True] comes more than the cooldown after [b]. *)
Lemma alerts_after_recorded (b : Q) ty (calls : list (Q * string)) :
  forall m (v : Q) (j : nat) (tj : Q),
    m !! ty = Some v -> (b <= v)%Q ->
    calls !! j = Some (tj, ty) ->
    alerts calls m !! j = Some true ->
    (b + alert_cooldown < tj)%Q.
Proof.
  induction calls as [|[t ty0] calls IH]; intros m v j tj Hv Hb Hj Hans;
    [discriminate|].
  cbn [alerts] in Hans. destruct j as [|j]; cbn in Hj, Hans.
  - injection Hj as -> ->. injection Hans as Hans.
    destruct (should_alert_recorded tj ty m v Hv) as [(_ & Hlt & _) | (Hf & _)];
      [lra | congruence].
  - destruct (decide (ty0 = ty)) as [-> | Hne].
    + destruct (should_alert_recorded t ty m v Hv) as [(_ & Hlt & Hrec) | (_ & Hrec)].
      * apply (IH _ t j tj Hrec); [unfold alert_cooldown in Hlt; lra | assumption..].
      * now apply (IH _ v j tj Hrec).
    + apply (IH (should_alert t ty0 m).2 v j tj); try assumption.
      rewrite should_alert_other; eauto.
Qed.

End Cooldown.

(** C10: in any series of [should_alert] calls, two calls for the same
    issue type that both answer [True] are more than [alert_cooldown]
    (300) seconds apart: the first one records its time, and no later call
    for that type answers [True] within the cooldown of it. *)
Theorem should_alert_once_per_cooldown (last_alert_time : gmap string Q)
    (calls : list (Q * string)) (i j : nat) (ti tj : Q) (issue_type : string) :
  (i < j)%nat ->
  calls !! i = Some (ti, issue_type) ->
  calls !! j = Some (tj, issue_type) ->
  alerts calls last_alert_time !! i = Some true ->
  alerts calls last_alert_time !! j = Some true ->
  (ti + alert_cooldown < tj)%Q /\ (ti + 300 < tj)%Q.
Proof.
  intros Hij Hi Hj Hai Haj.
  enough (H : (ti + alert_cooldown < tj)%Q) by (split; [exact H | exact H]).
  revert last_alert_time i j Hij Hi Hj Hai Haj.
  induction calls as [|[t ty0] calls IH]; intros m i j Hij Hi Hj Hai Haj;
    [discriminate|].
  destruct j as [|j]; [lia|].
  cbn [alerts] in Hai, Haj. cbn in Hj, Haj.
  destruct i as [|i]; cbn in Hi, Hai.
  - injection Hi as -> ->. injection Hai as Hai.
    apply should_alert_true in Hai.
    apply (alerts_after_recorded ti issue_type calls _ ti j tj Hai); [lra | assumption..].
  - apply (IH (should_alert t ty0 m).2 i j); [lia | assumption..].
Qed.

Lemma should_alert_once_per_cooldown_witness :
  alerts [(1000, "high_cpu"); (1200, "high_cpu"); (1301, "high_cpu")]%Q
         (∅ : gmap string Q) = [true; false; true]
  /\ (1000 + 300 < 1301)%Q.
Proof.
  split; [vm_compute; reflexivity|].
  apply (should_alert_once_per_cooldown ∅
           [(1000, "high_cpu"); (1200, "high_cpu"); (1301, "high_cpu")]%Q
           0 2 1000 1301 "high_cpu").
  - lia.
  - reflexivity.
  - reflexivity.
  - vm_compute. reflexivity.
  - vm_compute. reflexivity.
Defined.

(** * Further properties of the code *)

(** ** The selected node *)

(** X1: whatever [_update_best_node] stores in [best_node] is the URL of
    the primary with at least one connection, or the URL of a fast node
    with at least one connection and less than one second of latency. *)
Theorem best_node_is_an_admitted_endpoint (r : Router) (u : string) :
  best_node (_update_best_node r) = Some u ->
  (u = p_url (primary (node_swarm r)) /\ 0 < p_connections (primary (node_swarm r)))
  \/ exists n, In n (fast_nodes (node_swarm r)) /\ url n = u
               /\ 0 < connections n /\ (latency n < 1)%Q.
Proof.
  cbn. intros Hsel.
  apply select_best_origin in Hsel as [Hprim | (n & Hn & Hadm & Hu)]; [now left|].
  right. exists n. apply admitted_fast in Hadm. tauto.
Qed.

Lemma best_node_is_an_admitted_endpoint_witness :
  ("primary"%string = p_url (primary scenario_swarm)
   /\ 0 < p_connections (primary scenario_swarm))
  \/ exists n, In n (fast_nodes scenario_swarm) /\ url n = "primary"%string
               /\ 0 < connections n /\ (latency n < 1)%Q.
Proof.
  apply (best_node_is_an_admitted_endpoint
           {| node_swarm := scenario_swarm; best_node := None |} "primary"%string).
  vm_compute. reflexivity.
Defined.

(** In exact arithmetic the selection left open is the selection above. *)
Lemma update_best_node_exact (r : Router) :
  _update_best_node_with exact_scoring r = _update_best_node r.
Proof. reflexivity. Qed.

Section BestScore.

Variable sc : Scoring.

(** The two facts about [>] the selection relies on: nothing is above
    itself, and what is not above [a] is not above anything above [a].
    Both hold of rationals and of floats. *)
Hypothesis gt_irreflexive : forall a, score_gt sc a a = false.
Hypothesis gt_raises :
  forall a b c, score_gt sc b a = true -> score_gt sc c a = false ->
                score_gt sc c b = false.

(** What the locals [(best_score, best_node)] are with respect to the
    candidates [c] scored so far: unset when there is none, and otherwise
    one of them that no other compares above. *)
Let leads (b : option (score sc) * option string) (c : list (string * score sc)) : Prop :=
  (b = (None, None) /\ c = [])
  \/ exists (s : score sc) (u : string),
       b = (Some s, Some u) /\ In (u, s) c
       /\ forall u' s', In (u', s') c -> score_gt sc s' s = false.

Lemma leads_add (b : option (score sc) * option string) (c : list (string * score sc))
    (u : string) (s : score sc) :
  leads b c ->
  leads (if beats_with sc s (fst b) then (Some s, Some u) else b) (c ++ [(u, s)]).
Proof.
  intros [[-> ->] | (s0 & u0 & -> & Hin & Hmax)]; cbn [fst beats_with].
  - right. exists s, u. repeat split; [now left|].
    intros u' s' [[= <- <-] | []]. apply gt_irreflexive.
  - destruct (score_gt sc s s0) eqn:Hgt; right.
    + exists s, u. repeat split.
      * apply in_or_app. right. now left.
      * intros u' s' Hin'. apply in_app_or in Hin' as [Hin' | [[= <- <-] | []]].
        -- apply (gt_raises s0); [exact Hgt | now apply Hmax in Hin'].
        -- apply gt_irreflexive.
    + exists s0, u0. repeat split.
      * apply in_or_app. now left.
      * intros u' s' Hin'. apply in_app_or in Hin' as [Hin' | [[= <- <-] | []]].
        -- now apply Hmax in Hin'.
        -- exact Hgt.
Qed.

Lemma score_fast_nodes_leads (nodes : list FastNode)
    (b : option (score sc) * option string) (c : list (string * score sc)) :
  leads b c ->
  leads (fold_left (score_fast_node_with sc) nodes b)
        (c ++ map (fun n => (url n, node_score_of sc n))
                  (filter (fun n => admitted n = true) nodes)).
Proof.
  revert b c.
  induction nodes as [|n nodes IH]; intros b c Hb.
  - cbn. now rewrite app_nil_r.
  - cbn [fold_left]. rewrite filter_cons. unfold score_fast_node_with at 2.
    destruct (decide (admitted n = true)) as [Hadm | Hadm].
    + rewrite Hadm. cbn [map].
      replace (c ++ (url n, node_score_of sc n)
                 :: map (fun n0 => (url n0, node_score_of sc n0))
                        (filter (fun n0 => admitted n0 = true) nodes))
        with ((c ++ [(url n, node_score_of sc n)])
              ++ map (fun n0 => (url n0, node_score_of sc n0))
                     (filter (fun n0 => admitted n0 = true) nodes))
        by now rewrite <- app_assoc.
      apply IH. now apply leads_add.
    + apply not_true_is_false in Hadm. rewrite Hadm. now apply IH.
Qed.

Lemma select_best_leads (sw : NodeSwarm) :
  leads (select_best_with sc sw) (candidates_with sc sw).
Proof.
  unfold select_best_with, candidates_with. apply score_fast_nodes_leads.
  unfold score_primary_with. destruct (0 <? p_connections (primary sw)).
  - apply (leads_add (None, None) [] (p_url (primary sw)) (primary_score_of sc (primary sw))).
    now left.
  - now left.
Qed.

(** X2: in whatever arithmetic the scores are computed and compared, the
    code's binary floats included, when [_update_best_node] selects a node
    the node is one of the candidates (the primary with a connection, the
    fast nodes that pass the guard) and no candidate's score compares
    above the one stored with it; it selects none only when there is no
    candidate. *)
Theorem best_score_is_maximal (sw : NodeSwarm) :
  match select_best_with sc sw with
  | (Some s, Some u) =>
    In (u, s) (candidates_with sc sw)
    /\ forall u' s', In (u', s') (candidates_with sc sw) -> score_gt sc s' s = false
  | (None, None) => candidates_with sc sw = []
  | _ => False
  end.
Proof.
  destruct (select_best_leads sw) as [[-> Hc] | (s & u & -> & Hin & Hmax)].
  - exact Hc.
  - now split.
Qed.

End BestScore.

Lemma best_score_is_maximal_witness :
  match select_best_with exact_scoring scenario_swarm with
  | (Some s, Some u) =>
    In (u, s) (candidates_with exact_scoring scenario_swarm)
    /\ forall u' s', In (u', s') (candidates_with exact_scoring scenario_swarm) ->
         score_gt exact_scoring s' s = false
  | (None, None) => candidates_with exact_scoring scenario_swarm = []
  | _ => False
  end.
Proof.
  apply (best_score_is_maximal exact_scoring).
  - intros a. apply Qgtb_false, Qle_refl.
  - intros a b c Hba Hca. cbn in *.
    apply Qgtb_true in Hba. apply Qgtb_false in Hca. apply Qgtb_false. lra.
Defined.

(** X3: the earlier candidate is kept unless a later one compares strictly
    above it.  In whatever arithmetic the scores are computed and
    compared, when the primary has a connection and the score of no fast
    node that passes the guard compares above the primary's, the primary
    is selected, whatever was selected before. *)
Theorem primary_wins_ties (sc : Scoring) (r : Router) :
  0 < p_connections (primary (node_swarm r)) ->
  (forall n, In n (fast_nodes (node_swarm r)) -> admitted n = true ->
     score_gt sc (node_score_of sc n) (primary_score_of sc (primary (node_swarm r)))
     = false) ->
  best_node (_update_best_node_with sc r) = Some (p_url (primary (node_swarm r))).
Proof.
  intros Hconn Hle. cbn. unfold select_best_with, score_primary_with.
  apply Z.ltb_lt in Hconn. rewrite Hconn. cbn [beats_with fst].
  generalize (fast_nodes (node_swarm r)) Hle. clear Hle.
  intros nodes.
  induction nodes as [|n nodes IH]; intros Hle; [reflexivity|].
  cbn [fold_left]. unfold score_fast_node_with at 2.
  destruct (admitted n) eqn:Hadm.
  - cbn [fst beats_with].
    rewrite (Hle n (or_introl eq_refl) Hadm). apply IH. intros m Hm. apply Hle. now right.
  - apply IH. intros m Hm. apply Hle. now right.
Qed.

(** Primary and secondary with the same exact score of 40: ten connections
    and a mempool of 60 against thirteen connections, a mempool of 72 and
    half a second of latency. *)
Lemma primary_wins_ties_witness :
  let tie :=
    {| node_swarm :=
         {| primary := {| p_url := "primary"; p_connections := 10; p_last_block := 0;
                          p_mempool_size := 60 |};
            fast_nodes := [ {| url := "fast"; connections := 13; last_block := 0;
                               mempool_size := 72; latency := 1 # 2 |} ] |};
       best_node := Some "fast"%string |} in
  best_node (_update_best_node_with exact_scoring tie) = Some "primary"%string.
Proof.
  intros tie.
  apply (primary_wins_ties exact_scoring tie).
  - vm_compute. reflexivity.
  - intros n [<- | []] _. vm_compute. reflexivity.
Defined.

(** ** Calls and their fallback *)

(** X4: with a configured primary URL and room for two frames, [btc_rpc]
    always ends, after one or two requests, and it raises only what a
    request to the primary raised: no error surfaces while the primary has
    not been tried and failed. *)
Theorem btc_rpc_raises_only_what_primary_raised {R E : Type} (net : Network R E)
    (r : Router) (method : string) (params : list string) (node_url : option string)
    (sent : list Request) (depth : nat) :
  let prim := p_url (primary (node_swarm r)) in
  let to_primary := {| req_url := prim; req_method := method; req_params := params |} in
  prim <> ""%string ->
  exists (res : outcome R E) (new : list Request),
    btc_rpc (S (S depth)) net r method params node_url sent = Some (res, sent ++ new)
    /\ (1 <= length new <= 2)%nat
    /\ forall e, res = Raised e ->
         exists before, sent ++ new = before ++ [to_primary]
                        /\ net before to_primary = Raised e.
Proof.
  intros prim to_primary Hprim.
  set (first := {| req_url := target_url r node_url; req_method := method;
                   req_params := params |}).
  change (btc_rpc (S (S depth)) net r method params node_url sent)
    with (match net sent first with
          | Returned resp => Some (Returned resp, sent ++ [first])
          | Raised e0 =>
            if negb (String.eqb (target_url r node_url) prim) then
              btc_rpc (S depth) net r method params (Some prim) (sent ++ [first])
            else Some (Raised e0, sent ++ [first])
          end).
  destruct (net sent first) as [resp | e0] eqn:Hfirst.
  - exists (Returned resp), [first]. repeat split; [cbn; lia.. | discriminate].
  - destruct (String.eqb (target_url r node_url) prim) eqn:Hurl; cbn [negb].
    + apply String.eqb_eq in Hurl.
      exists (Raised e0), [first]. repeat split; [cbn; lia..|].
      intros e [= <-]. exists sent. split; [|].
      * subst first to_primary. now rewrite Hurl.
      * subst first to_primary. now rewrite Hurl in Hfirst.
    + rewrite btc_rpc_on_primary by now apply target_url_explicit.
      fold prim. fold to_primary.
      exists (net (sent ++ [first]) to_primary), [first; to_primary].
      repeat split; [now rewrite <- app_assoc | cbn; lia.. |].
      intros e He. exists (sent ++ [first]). split; [|exact He].
      now rewrite <- app_assoc.
Qed.

Lemma btc_rpc_raises_only_what_primary_raised_witness :
  exists (res : outcome string string) (new : list Request),
    btc_rpc 2 all_fail {| node_swarm := scenario_swarm; best_node := Some "B"%string |}
            "getblockcount" [] None [] = Some (res, new)
    /\ (1 <= length new <= 2)%nat.
Proof.
  destruct (btc_rpc_raises_only_what_primary_raised all_fail
              {| node_swarm := scenario_swarm; best_node := Some "B"%string |}
              "getblockcount" [] None [] 0) as (res & new & Hcall & Hlen & _).
  - discriminate.
  - exists res, new. split; [exact Hcall | exact Hlen].
Defined.

(** X5: with an empty primary URL and a non-empty best node, a call on a
    network where every request fails never ends: the retry's
    [node_url or best_node or primary] picks the best node again, and the
    call recurses until the limit, whatever the limit is. *)
Theorem btc_rpc_without_primary_recurses {R E : Type} (net : Network R E) (r : Router)
    (method : string) (params : list string) (u : string) (depth : nat)
    (node_url : option string) (sent : list Request) :
  (forall before rq, exists e, net before rq = Raised e) ->
  p_url (primary (node_swarm r)) = ""%string ->
  best_node r = Some u -> u <> ""%string ->
  target_url r node_url = u ->
  btc_rpc depth net r method params node_url sent = None.
Proof.
  intros Hfail Hprim Hbest Hu. revert node_url sent.
  induction depth as [|depth IH]; intros node_url sent Hurl; [reflexivity|].
  cbn [btc_rpc]. rewrite Hurl, Hprim.
  destruct (Hfail sent {| req_url := u; req_method := method; req_params := params |})
    as [e ->].
  destruct u as [|c u]; [congruence|]. cbn [String.eqb negb].
  apply IH. unfold target_url. rewrite Hbest, Hprim. reflexivity.
Qed.

Lemma btc_rpc_without_primary_recurses_witness :
  btc_rpc 1000 all_fail
    {| node_swarm := {| primary := {| p_url := ""; p_connections := 0; p_last_block := 0;
                                      p_mempool_size := 0 |};
                       fast_nodes := [secondary_B] |};
       best_node := Some "B"%string |}
    "getblockcount" [] None [] = None.
Proof.
  apply (btc_rpc_without_primary_recurses all_fail _ "getblockcount" [] "B"%string 1000 None []).
  - intros before rq. now exists "timed out"%string.
  - reflexivity.
  - reflexivity.
  - discriminate.
  - reflexivity.
Defined.

(** ** The sample buffers and the flush *)

Section Samples.

Variable h : Handlers.

Lemma execute_keeps_paired (elapsed : Q) (o : Opportunity) (m : Monitor) :
  paired_samples (performance_metrics m) ->
  paired_samples (performance_metrics (_execute_opportunity h elapsed o m)).
Proof.
  intros [Hlen Hflags]. unfold _execute_opportunity.
  destruct (lookup_type _ _); [|now split].
  destruct (dispatch h o) as [[p | e] |]; cbn; try now split.
  unfold record_result, paired_samples.
  destruct (Qgtb p 0); cbn [analysis_latency success_rate with_types];
    rewrite !length_app, Hlen; (split; [reflexivity|]);
    apply Forall_app; (split; [assumption|]); (constructor; [lia | constructor]).
Qed.

Lemma step_keeps_paired (m : Monitor) (e : event) :
  paired_samples (performance_metrics m) ->
  paired_samples (performance_metrics (step h m e)).
Proof.
  intros Hp. destruct e as [[opp|] | i | elapsed]; cbn; try assumption.
  - now destruct (truthy (type opp)).
  - unfold worker_turn.
    destruct (chan_get (opportunity_queue m)) as [[o|] c]; [|assumption].
    cbn [performance_metrics]. now apply execute_keeps_paired.
Qed.

Lemma run_keeps_paired (events : list event) (m : Monitor) :
  paired_samples (performance_metrics m) ->
  paired_samples (performance_metrics (run h events m)).
Proof.
  unfold run. revert m.
  induction events as [|e events IH]; intros m Hp; [exact Hp|].
  cbn [fold_left]. apply IH. now apply step_keeps_paired.
Qed.

End Samples.

Lemma new_monitor_paired (now : Q) :
  paired_samples (performance_metrics (new_monitor now)).
Proof. split; [reflexivity | constructor]. Qed.

(** X6: after every run of the pipeline from the monitor's initial state
    the two sample buffers have the same length, and every success sample
    is 0 or 1. *)
Theorem sample_buffers_stay_paired (h : Handlers) (events : list event) (now : Q) :
  let pm := performance_metrics (run h events (new_monitor now)) in
  length (analysis_latency pm) = length (success_rate pm)
  /\ Forall (fun b => b = 0 \/ b = 1) (success_rate pm).
Proof.
  exact (run_keeps_paired h events (new_monitor now) (new_monitor_paired now)).
Qed.

Lemma sum_Z_flags_acc (flags : list Z) (acc : Z) :
  Forall (fun b => b = 0 \/ b = 1) flags ->
  acc <= fold_left Z.add flags acc <= acc + Z.of_nat (length flags).
Proof.
  revert acc. induction flags as [|b flags IH]; intros acc Hflags; [cbn; lia|].
  apply Forall_cons in Hflags as [Hb Hflags].
  cbn [fold_left length]. specialize (IH (acc + b) Hflags). lia.
Qed.

Lemma success_ratio_bounds (flags : list Z) :
  flags <> [] ->
  Forall (fun b => b = 0 \/ b = 1) flags ->
  (0 <= inject_Z (sum_Z flags) / len_Q flags <= 1)%Q.
Proof.
  intros Hne Hflags.
  pose proof (sum_Z_flags_acc flags 0 Hflags) as [Hlo Hhi].
  fold (sum_Z flags) in Hlo, Hhi.
  assert (Hlen : (0 < len_Q flags)%Q).
  { unfold len_Q. change 0%Q with (inject_Z 0). rewrite <- Zlt_Qlt.
    destruct flags; [congruence | cbn; lia]. }
  split.
  - apply Qle_shift_div_l; [exact Hlen|]. rewrite Qmult_0_l.
    change 0%Q with (inject_Z 0). now rewrite <- Zle_Qle.
  - apply Qle_shift_div_r; [exact Hlen|]. rewrite Qmult_1_l.
    unfold len_Q. rewrite <- Zle_Qle. lia.
Qed.

(** X7: a flush of the metrics reached by any run of the pipeline never
    fails on the success-rate division.  It finds nothing to flush exactly
    when there is no latency sample; it fails only when the clock has not
    moved since [last_opportunity_time] or when Redis raises; and the
    success rate it publishes lies between 0 and 1, next to the totals as
    they are. *)
Theorem flush_after_run (h : Handlers) (events : list event) (now : Q)
    (current_time : Q) (hset : Snapshot -> outcome unit string) :
  let pm := performance_metrics (run h events (new_monitor now)) in
  match snd (_update_performance_metrics current_time hset pm) with
  | NothingToFlush => analysis_latency pm = []
  | FlushFailed msg =>
    (current_time - last_opportunity_time pm == 0)%Q
    \/ exists snap, hset snap = Raised msg
  | Published snap =>
    (0 <= snap_success_rate snap <= 1)%Q
    /\ snap_opportunities_found snap = opportunities_found pm
    /\ snap_total_profit snap = total_profit pm
    /\ hset snap = Returned tt
  end.
Proof.
  intros pm.
  destruct (run_keeps_paired h events (new_monitor now) (new_monitor_paired now))
    as [Hlen Hflags].
  fold pm in Hlen, Hflags.
  unfold _update_performance_metrics.
  destruct (analysis_latency pm) as [|l ls] eqn:Hlat; [reflexivity|].
  destruct (success_rate pm) as [|b bs] eqn:Hsucc; [discriminate Hlen|].
  destruct (Qeq_bool _ _) eqn:Hzero; cbn [snd].
  - left. apply Qeq_bool_iff in Hzero.
    assert (Hscale : (current_time - last_opportunity_time pm
                      == (current_time - last_opportunity_time pm) / 3600 * 3600)%Q)
      by (field; discriminate).
    rewrite Hscale, Hzero. ring.
  - destruct (hset _) as [[] | e] eqn:Hset; cbn [snd].
    + repeat split; try reflexivity; try exact Hset;
        apply (success_ratio_bounds (b :: bs)); (discriminate || assumption).
    + right. eauto.
Qed.
(** ** Nothing detected is lost *)

Section Conservation.

Variable h : Handlers.

Lemma update_type_keeps_names (key : string) (f : TypeStats -> TypeStats)
    (t : list (string * TypeStats)) :
  map fst (update_type key f t) = map fst t.
Proof.
  induction t as [|[k v] t IH]; cbn [update_type]; [reflexivity|].
  destruct (String.eqb key k); cbn [map fst]; [reflexivity | now rewrite IH].
Qed.

Lemma lookup_type_known (key : string) (t : list (string * TypeStats)) :
  In key (map fst t) -> lookup_type key t <> None.
Proof.
  induction t as [|[k v] t IH]; cbn [map fst lookup_type In]; [tauto|].
  intros [-> | Hin].
  - now rewrite String.eqb_refl.
  - destruct (String.eqb key k); [discriminate | now apply IH].
Qed.

(** The category table keeps its names whatever is executed. *)
Lemma execute_keeps_categories (elapsed : Q) (o : Opportunity) (m : Monitor) :
  categories (performance_metrics (_execute_opportunity h elapsed o m))
  = categories (performance_metrics m).
Proof.
  unfold _execute_opportunity, categories.
  destruct (lookup_type _ _); [|reflexivity].
  destruct (dispatch h o) as [[p | e] |]; cbn;
    try apply update_type_keeps_names.
  unfold record_result. destruct (Qgtb p 0); cbn;
    now rewrite ?update_type_keeps_names.
Qed.

(** The state of a pipeline in which no opportunity is lost: the table has
    the names [names], everything queued or held by a blocked producer is
    of one of these categories, and the executed, queued and held
    opportunities add up to [opportunities_found]. *)
Let conserving (names : list string) (m : Monitor) : Prop :=
  categories (performance_metrics m) = names
  /\ Forall (fun o => In (type o) names)
            (items (chan_queue (opportunity_queue m)) ++ chan_blocked (opportunity_queue m))
  /\ sum_counts (opportunity_types (performance_metrics m))
     + Z.of_nat (length (items (chan_queue (opportunity_queue m))))
     + Z.of_nat (length (chan_blocked (opportunity_queue m)))
     = opportunities_found (performance_metrics m).

Lemma step_conserving (names : list string) (m : Monitor) (e : event) :
  (forall o, In o (detected [e]) -> In (type o) names) ->
  conserving names m -> conserving names (step h m e).
Proof.
  intros Hknown (Hnames & Hall & Hsum). unfold conserving.
  destruct e as [[opp|] | i | elapsed]; cbn [step pending_mev_result];
    try (now repeat split).
  - destruct (truthy (type opp)) eqn:Htruthy; [|now repeat split].
    assert (Hopp : In (type opp) names).
    { apply Hknown. cbn. rewrite Htruthy. now left. }
    cbn [performance_metrics opportunity_queue opportunity_types opportunities_found].
    pose proof (chan_put_backlog opp (opportunity_queue m)) as Hlen.
    repeat split; [assumption | | lia].
    unfold chan_put, put. destruct (full (chan_queue (opportunity_queue m))); cbn.
    + rewrite app_assoc. apply Forall_app. split; [assumption | now constructor].
    + rewrite <- app_assoc. apply Forall_app in Hall as [Hq Hb].
      apply Forall_app. split; [assumption|].
      apply Forall_app. split; [now constructor | assumption].
  - cbn [performance_metrics opportunity_queue].
    pose proof (chan_resume_backlog i (opportunity_queue m)) as Hlen.
    repeat split; [assumption | | lia].
    unfold chan_resume, put.
    destruct (chan_blocked (opportunity_queue m) !! i) as [x|] eqn:Hx; [|assumption].
    destruct (full (chan_queue (opportunity_queue m))); cbn; [assumption|].
    apply Forall_app in Hall as [Hq Hb].
    rewrite <- app_assoc. apply Forall_app. split; [assumption|].
    apply Forall_app. split.
    + constructor; [|constructor]. apply (Forall_lookup_1 _ _ _ _ Hb Hx).
    + now apply Forall_delete.
  - unfold worker_turn, chan_get, get.
    destruct (items (chan_queue (opportunity_queue m))) as [|o rest] eqn:Hitems;
      [now repeat split; rewrite ?Hitems|].
    cbn [performance_metrics opportunity_queue].
    match goal with |- context [_execute_opportunity h elapsed o ?m0] =>
      destruct (execute_keeps_queue h elapsed o m0) as [Hq _];
      pose proof (execute_counts h elapsed o m0) as Hcount;
      pose proof (execute_keeps_found h elapsed o m0) as Hfound;
      pose proof (execute_keeps_categories elapsed o m0) as Hcat
    end.
    rewrite Hq, Hcount, Hfound, Hcat. cbn in *.
    apply Forall_cons in Hall as [Ho Hrest].
    repeat split; [assumption | assumption |].
    rewrite <- Hnames in Ho. apply lookup_type_known in Ho.
    destruct (lookup_type _ _); [lia | congruence].
Qed.

Lemma run_conserving (names : list string) (events : list event) (m : Monitor) :
  (forall o, In o (detected events) -> In (type o) names) ->
  conserving names m -> conserving names (run h events m).
Proof.
  unfold run. revert m.
  induction events as [|e events IH]; intros m Hknown Hm; [exact Hm|].
  cbn [fold_left]. rewrite detected_cons in Hknown.
  apply IH.
  - intros o Ho. apply Hknown. apply in_or_app. now right.
  - apply step_conserving; [|exact Hm].
    intros o Ho. apply Hknown. apply in_or_app. now left.
Qed.

(** X8: when every detected opportunity is of one of the seven categories
    of the metrics table, none is lost: after every run from the initial
    state, the opportunities executed (the sum of the category counts),
    those in the queue and those held by blocked producers add up to
    [opportunities_found]. *)
Theorem known_opportunities_are_conserved (events : list event) (now : Q) :
  (forall o, In o (detected events) ->
     In (type o) (categories (initial_metrics now))) ->
  let m := run h events (new_monitor now) in
  sum_counts (opportunity_types (performance_metrics m))
  + Z.of_nat (length (items (chan_queue (opportunity_queue m))))
  + Z.of_nat (length (chan_blocked (opportunity_queue m)))
  = opportunities_found (performance_metrics m).
Proof.
  intros Hknown m.
  apply (run_conserving (categories (initial_metrics now)) events (new_monitor now) Hknown).
  repeat split. constructor.
Qed.

End Conservation.

Lemma known_opportunities_are_conserved_witness :
  let m := run failing_handlers
               [Found (Some arbitrage_opp); Found (Some arbitrage_opp); WorkerTurn 1]
               (new_monitor 0) in
  sum_counts (opportunity_types (performance_metrics m))
  + Z.of_nat (length (items (chan_queue (opportunity_queue m))))
  + Z.of_nat (length (chan_blocked (opportunity_queue m)))
  = opportunities_found (performance_metrics m).
Proof.
  apply (known_opportunities_are_conserved failing_handlers
           [Found (Some arbitrage_opp); Found (Some arbitrage_opp); WorkerTurn 1] 0).
  intros o Ho. cbn in Ho. destruct Ho as [<- | [<- | []]]; cbn; tauto.
Defined.

(** X9: along every run of the pipeline the opportunity queue keeps its
    capacity of 1000 and never holds more than 1000 opportunities, however
    many are detected. *)
Theorem monitor_queue_stays_bounded (h : Handlers) (events : list event) (now : Q) :
  let q := chan_queue (opportunity_queue (run h events (new_monitor now))) in
  maxsize q = 1000%nat /\ (length (items q) <= 1000)%nat.
Proof.
  cbv zeta. unfold run.
  assert (Hstart : maxsize (chan_queue (opportunity_queue (new_monitor now))) = 1000%nat
                   /\ (length (items (chan_queue (opportunity_queue (new_monitor now))))
                       <= 1000)%nat) by (cbn; lia).
  revert Hstart. generalize (new_monitor now).
  induction events as [|e events IH]; intros m Hm; [exact Hm|].
  cbn [fold_left]. apply IH. destruct Hm as [Hmax Hlen].
  destruct e as [[opp|] | i | elapsed]; cbn [step pending_mev_result];
    try (now split).
  - destruct (truthy (type opp)); [|now split].
    cbn [opportunity_queue]. unfold chan_put, put.
    destruct (full (chan_queue (opportunity_queue m))) eqn:Hfull; cbn; [now split|].
    apply not_full_room in Hfull; [|lia].
    rewrite length_app. cbn. split; [assumption | lia].
  - cbn [opportunity_queue]. unfold chan_resume, put.
    destruct (chan_blocked (opportunity_queue m) !! i); [|now split].
    destruct (full (chan_queue (opportunity_queue m))) eqn:Hfull; cbn; [now split|].
    apply not_full_room in Hfull; [|lia].
    rewrite length_app. cbn. split; [assumption | lia].
  - unfold worker_turn, chan_get, get.
    destruct (items (chan_queue (opportunity_queue m))) as [|o rest] eqn:Hitems;
      [rewrite Hitems; now split|].
    cbn [opportunity_queue].
    match goal with |- context [_execute_opportunity h elapsed o ?m0] =>
      destruct (execute_keeps_queue h elapsed o m0) as [-> _] end.
    cbn in *. split; [assumption | lia].
Qed.

(** ** The analysers *)

Section Analysers.

Import MEVOptimizer.

Lemma lookup_settings_In (opp_type : string) (table : list (string * TypeSettings))
    (s : TypeSettings) :
  lookup_settings opp_type table = Some s -> In (opp_type, s) table.
Proof.
  induction table as [|[k v] table IH]; cbn [lookup_settings]; [discriminate|].
  destruct (String.eqb opp_type k) eqn:Hk.
  - apply String.eqb_eq in Hk as ->. intros [= ->]. now left.
  - intros H. right. now apply IH.
Qed.

(** Whatever the type, the analysis the chain picks reports no profit. *)
Lemma type_profit_zero (opp_type : string) (tx : Tx) (receipt : Receipt) (p : Q) :
  type_profit opp_type tx receipt = Some p -> p = 0%Q.
Proof.
  unfold type_profit.
  repeat (destruct (String.eqb opp_type _); [now intros [= <-]|]).
  discriminate.
Qed.

Lemma analysis_finds_nothing (w3 : Web3) (config : Config) (now : Q)
    (opp_type : string) (tx : Tx) (receipt : Receipt) :
  (forall ty s, In (ty, s) (cfg_opportunity_types config) ->
     (0 <= profit_threshold s)%Q) ->
  _analyze_opportunity_type w3 config now opp_type tx receipt = None.
Proof.
  intros Hthr. unfold _analyze_opportunity_type.
  destruct (lookup_settings _ _) as [s|] eqn:Hs; [|reflexivity].
  apply lookup_settings_In, Hthr in Hs.
  destruct (from_wei w3 (gasPrice tx) "gwei") as [gwei|]; [|reflexivity].
  destruct (Qgtb gwei _); [reflexivity|].
  destruct (type_profit _ _ _) as [p|] eqn:Hp; [|reflexivity].
  apply type_profit_zero in Hp as ->.
  assert (Hno : Qgtb 0 (profit_threshold s) = false) by now apply Qgtb_false.
  now rewrite Hno.
Qed.

Lemma first_opportunity_none (results : list (option Opportunity)) :
  Forall (fun r => r = None) results -> first_opportunity results = None.
Proof.
  induction 1 as [|r results Hr _ IH]; [reflexivity|].
  subst r. exact IH.
Qed.

End Analysers.

(** X10: as long as no configured profit threshold is negative, the
    optimizer finds nothing: each of its per-type analyses reports a profit
    of zero, so [_analyze_opportunity_type] returns [None] for every type
    and transaction, and [analyze_transaction], in whatever order the
    futures complete, returns [None], leaves counts, profits and totals
    alone and only records a latency sample. *)
Theorem optimizer_finds_nothing (w3 : Web3) (config : MEVOptimizer.Config) (now : Q)
    (tx : Tx) (receipt : Receipt) :
  (forall ty s, In (ty, s) (MEVOptimizer.cfg_opportunity_types config) ->
     (0 <= MEVOptimizer.profit_threshold s)%Q) ->
  (forall opp_type,
     MEVOptimizer._analyze_opportunity_type w3 config now opp_type tx receipt = None)
  /\ forall (elapsed : Q) (results : list (option Opportunity)) (pm : PerformanceMetrics),
       results ≡ₚ MEVOptimizer.submitted_analyses w3 config now tx receipt ->
       let r := analyze_transaction elapsed results pm in
       fst r = None
       /\ analysis_latency (snd r) = analysis_latency pm ++ [elapsed]
       /\ opportunity_types (snd r) = opportunity_types pm
       /\ opportunities_found (snd r) = opportunities_found pm
       /\ total_profit (snd r) = total_profit pm
       /\ success_rate (snd r) = success_rate pm.
Proof.
  intros Hthr. split.
  - intros opp_type. now apply analysis_finds_nothing.
  - intros elapsed results pm Hperm. cbv zeta. unfold analyze_transaction.
    rewrite first_opportunity_none; [now repeat split|].
    rewrite Hperm. unfold MEVOptimizer.submitted_analyses.
    apply Forall_map, Forall_forall. intros entry _. cbn.
    now apply analysis_finds_nothing.
Qed.

Lemma optimizer_finds_nothing_witness :
  MEVOptimizer._analyze_opportunity_type plain_web3 MEVOptimizer.MEV_CONFIG 0 "arbitrage"
    {| tx_hash := "0xabc"; gasPrice := 20000000000 |} {| gasUsed := 21000 |} = None.
Proof.
  apply (optimizer_finds_nothing plain_web3 MEVOptimizer.MEV_CONFIG 0
           {| tx_hash := "0xabc"; gasPrice := 20000000000 |} {| gasUsed := 21000 |}).
  intros ty s Hin. cbn in Hin.
  repeat (destruct Hin as [[= <- <-] | Hin]; [vm_compute; discriminate|]).
  destruct Hin.
Defined.

(** X11: an opportunity returned by [_analyze_just_in_time] or
    [_analyze_time_bandit] carries the analyser's own type, which is one of
    the categories of the metrics table, and a potential profit strictly
    above the threshold it was given. *)
Theorem monitor_analysers_return_known_profitable (w3 : Web3) (d : Detectors)
    (min_profit_threshold now : Q) (hash : string) (o : Opportunity) (t0 : Q) :
  _analyze_just_in_time w3 d min_profit_threshold now hash = Some o
  \/ _analyze_time_bandit w3 d min_profit_threshold now hash = Some o ->
  (type o = "just_in_time"%string \/ type o = "time_bandit"%string)
  /\ In (type o) (categories (initial_metrics t0))
  /\ (min_profit_threshold < potential_profit o)%Q.
Proof.
  assert (Hshared : forall name is_opp calc details,
            analyse_with w3 name is_opp calc details min_profit_threshold now hash = Some o ->
            type o = name /\ (min_profit_threshold < potential_profit o)%Q).
  { intros name is_opp calc details. unfold analyse_with.
    destruct (get_transaction w3 hash) as [tx|]; [|discriminate].
    destruct (get_transaction_receipt w3 hash) as [receipt|]; [|discriminate].
    destruct (is_opp tx receipt) as [[|]|]; try discriminate.
    destruct (calc tx receipt) as [profit|]; [|discriminate].
    destruct (Qgtb profit min_profit_threshold) eqn:Hgt; [|discriminate].
    destruct (from_wei w3 _ _) as [gas|]; [|discriminate].
    destruct (details tx receipt); [|discriminate].
    intros [= <-]. split; [reflexivity | now apply Qgtb_true]. }
  intros [Hjit | Htb].
  - apply Hshared in Hjit as [Hty Hprofit]. rewrite Hty.
    repeat split; [now left | cbn; tauto | exact Hprofit].
  - apply Hshared in Htb as [Hty Hprofit]. rewrite Hty.
    repeat split; [now right | cbn; tauto | exact Hprofit].
Qed.

Lemma monitor_analysers_return_known_profitable_witness :
  exists o, _analyze_just_in_time one_tx_web3 eager_detectors (1 # 1000) 0 "0xabc" = Some o
            /\ In (type o) (categories (initial_metrics 0))
            /\ (1 # 1000 < potential_profit o)%Q.
Proof.
  eexists. split; [reflexivity|].
  match goal with
  | |- In (type ?o) _ /\ _ =>
    destruct (monitor_analysers_return_known_profitable one_tx_web3 eager_detectors
                (1 # 1000) 0 "0xabc" o 0 (or_introl eq_refl)) as (_ & Hin & Hprofit)
  end.
  split; [exact Hin | exact Hprofit].
Defined.

(** ** Probing the nodes *)

Section FallbackEquation.

Context {R E : Type}.
Variable net : Network R E.

(** The fallback of [btc_rpc], as an equation: a failed request to another
    node than the configured primary is followed by one to the primary,
    whose outcome is the call's. *)
Lemma btc_rpc_falls_back (r : Router) (method : string) (params : list string)
    (u : string) (sent : list Request) (depth : nat) (e : E) :
  let prim := p_url (primary (node_swarm r)) in
  let first := {| req_url := u; req_method := method; req_params := params |} in
  let retry := {| req_url := prim; req_method := method; req_params := params |} in
  prim <> ""%string -> u <> ""%string -> u <> prim ->
  net sent first = Raised e ->
  btc_rpc (S (S depth)) net r method params (Some u) sent
  = Some (net (sent ++ [first]) retry, sent ++ [first; retry]).
Proof.
  intros prim first retry Hprim Hu Hother Hfail.
  assert (Hurl : target_url r (Some u) = u) by now apply target_url_explicit.
  change (btc_rpc (S (S depth)) net r method params (Some u) sent)
    with (match net sent {| req_url := target_url r (Some u); req_method := method;
                            req_params := params |} with
          | Returned resp =>
            Some (Returned resp,
                  sent ++ [{| req_url := target_url r (Some u); req_method := method;
                              req_params := params |}])
          | Raised e0 =>
            if negb (String.eqb (target_url r (Some u)) prim) then
              btc_rpc (S depth) net r method params (Some prim)
                (sent ++ [{| req_url := target_url r (Some u); req_method := method;
                             req_params := params |}])
            else Some (Raised e0,
                       sent ++ [{| req_url := target_url r (Some u); req_method := method;
                                   req_params := params |}])
          end).
  rewrite Hurl. fold first. rewrite Hfail.
  apply String.eqb_neq in Hother. rewrite Hother. cbn [negb].
  rewrite btc_rpc_on_primary by now apply target_url_explicit.
  now rewrite <- app_assoc.
Qed.

(** With a configured primary and room for two frames a call always
    ends. *)
Lemma btc_rpc_ends (r : Router) (method : string) (params : list string)
    (node_url : option string) (sent : list Request) (depth : nat) :
  p_url (primary (node_swarm r)) <> ""%string ->
  exists res sent',
    btc_rpc (S (S depth)) net r method params node_url sent = Some (res, sent').
Proof.
  intros Hprim. cbn [btc_rpc].
  destruct (net sent _) as [resp | e]; [eauto|].
  destruct (negb _); [|eauto].
  rewrite (target_url_explicit r _ Hprim), String.eqb_refl. cbn [negb].
  destruct (net _ _); eauto.
Qed.

End FallbackEquation.

Section Probing.

Variable net : Network NodeInfo string.
Variable clock : list Request -> Q.

(** X12: a probe of a fast node that fails on the node and then on the
    primary leaves the node's sample, latency included, as it was. *)
Theorem failed_probe_keeps_sample (r : Router) (node : FastNode) (sent : list Request)
    (depth : nat) (e1 e2 : string) :
  let prim := p_url (primary (node_swarm r)) in
  let to_node := {| req_url := url node; req_method := "getblockchaininfo";
                    req_params := [] |} in
  let to_primary := {| req_url := prim; req_method := "getblockchaininfo";
                       req_params := [] |} in
  prim <> ""%string -> url node <> ""%string -> url node <> prim ->
  net sent to_node = Raised e1 ->
  net (sent ++ [to_node]) to_primary = Raised e2 ->
  probe_fast_node (S (S depth)) net clock r node sent
  = Some (node, sent ++ [to_node; to_primary]).
Proof.
  intros prim to_node to_primary Hprim Hu Hother Hnode Hprimary.
  unfold probe_fast_node.
  rewrite (btc_rpc_falls_back net r "getblockchaininfo" [] (url node) sent depth e1)
    by assumption.
  fold prim. fold to_node. fold to_primary. now rewrite Hprimary.
Qed.

(** X13: a probe of a fast node whose request fails on the node, and whose
    fallback is answered by the primary, stores the primary's answer in
    the node: its connections and block height become the primary's, and
    its latency the time both requests took. *)
Theorem failed_probe_records_primary_answer (r : Router) (node : FastNode)
    (sent : list Request) (depth : nat) (e : string) (info : NodeInfo) (c b : Z) :
  let prim := p_url (primary (node_swarm r)) in
  let to_node := {| req_url := url node; req_method := "getblockchaininfo";
                    req_params := [] |} in
  let to_primary := {| req_url := prim; req_method := "getblockchaininfo";
                       req_params := [] |} in
  prim <> ""%string -> url node <> ""%string -> url node <> prim ->
  net sent to_node = Raised e ->
  net (sent ++ [to_node]) to_primary = Returned info ->
  info_connections info = Some c ->
  info_blocks info = Some b ->
  exists node' sent',
    probe_fast_node (S (S depth)) net clock r node sent = Some (node', sent')
    /\ url node' = url node
    /\ connections node' = c
    /\ last_block node' = b
    /\ latency node' = (clock (sent ++ [to_node; to_primary]) - clock sent)%Q.
Proof.
  intros prim to_node to_primary Hprim Hu Hother Hnode Hprimary Hc Hb.
  unfold probe_fast_node.
  rewrite (btc_rpc_falls_back net r "getblockchaininfo" [] (url node) sent depth e)
    by assumption.
  fold prim. fold to_node. fold to_primary. rewrite Hprimary, Hc, Hb.
  set (sent1 := sent ++ [to_node; to_primary]).
  destruct (btc_rpc_ends net r "getmempoolinfo" [] (Some (url node)) sent1 depth Hprim)
    as (res & sent2 & ->).
  destruct res as [mempool | e2]; [destruct (info_size mempool)|];
    eexists _, _; (split; [reflexivity|]); now repeat split.
Qed.

Lemma probe_primary_keeps (r r' : Router) (sent sent' : list Request) (depth : nat) :
  probe_primary depth net r sent = Some (r', sent') ->
  p_url (primary (node_swarm r')) = p_url (primary (node_swarm r))
  /\ fast_nodes (node_swarm r') = fast_nodes (node_swarm r)
  /\ best_node r' = best_node r.
Proof.
  unfold probe_primary.
  destruct (btc_rpc depth net r _ _ _ sent) as [[[info | e] sent1]|];
    [|now intros [= <- <-] | discriminate].
  destruct (info_connections info); [|now intros [= <- <-]].
  destruct (info_blocks info); [|now intros [= <- <-]].
  destruct (btc_rpc depth net _ _ _ _ sent1) as [[[mempool | e] sent2]|];
    [|now intros [= <- <-] | discriminate].
  destruct (info_size mempool); now intros [= <- <-].
Qed.

Lemma probe_fast_node_keeps_url (r : Router) (node node' : FastNode)
    (sent sent' : list Request) (depth : nat) :
  probe_fast_node depth net clock r node sent = Some (node', sent') ->
  url node' = url node.
Proof.
  unfold probe_fast_node.
  destruct (btc_rpc depth net r _ _ _ sent) as [[[info | e] sent1]|];
    [|now intros [= <- <-] | discriminate].
  destruct (info_connections info); [|now intros [= <- <-]].
  destruct (info_blocks info); [|now intros [= <- <-]].
  destruct (btc_rpc depth net _ _ _ _ sent1) as [[[mempool | e] sent2]|];
    [|now intros [= <- <-] | discriminate].
  destruct (info_size mempool); now intros [= <- <-].
Qed.

Lemma probe_fast_nodes_keep_urls (r : Router) (nodes nodes' : list FastNode)
    (sent sent' : list Request) (depth : nat) :
  probe_fast_nodes depth net clock r nodes sent = Some (nodes', sent') ->
  map url nodes' = map url nodes.
Proof.
  revert nodes' sent sent'.
  induction nodes as [|node nodes IH]; intros nodes' sent sent'; cbn [probe_fast_nodes].
  - now intros [= <- <-].
  - destruct (probe_fast_node depth net clock r node sent) as [[node1 sent1]|] eqn:Hnode;
      [|discriminate].
    destruct (probe_fast_nodes depth net clock r nodes sent1) as [[rest sent2]|] eqn:Hrest;
      [|discriminate].
    intros [= <- <-]. cbn [map].
    now rewrite (probe_fast_node_keeps_url _ _ _ _ _ _ Hnode), (IH _ _ _ Hrest).
Qed.

(** X14: a health check never changes the configured URLs, and it keeps
    [best_node] among them: if the best node was unset or one of the
    configured URLs before, it is so afterwards. *)
Theorem health_check_keeps_endpoints (h h' : Health) (sent sent' : list Request)
    (depth : nat) :
  _update_node_health depth net clock h sent = Some (h', sent') ->
  (forall u, best_node (router h) = Some u -> In u (endpoint_urls (router h))) ->
  endpoint_urls (router h') = endpoint_urls (router h)
  /\ forall u, best_node (router h') = Some u -> In u (endpoint_urls (router h')).
Proof.
  unfold _update_node_health.
  destruct (Qltb _ _); [now intros [= <- <-]|].
  destruct (probe_primary depth net (router h) sent) as [[r1 sent1]|] eqn:Hprimary;
    [|discriminate].
  destruct (probe_fast_nodes depth net clock r1 _ sent1) as [[nodes sent2]|] eqn:Hfast;
    [|discriminate].
  intros [= <- <-] _.
  apply probe_primary_keeps in Hprimary as (Hurl & Hnodes & _).
  apply probe_fast_nodes_keep_urls in Hfast.
  assert (Hsame : endpoint_urls (_update_best_node (with_fast_nodes r1 nodes))
                  = endpoint_urls (router h)).
  { unfold endpoint_urls. cbn. now rewrite Hurl, Hfast, Hnodes. }
  cbn [router]. split; [exact Hsame|].
  intros u Hu. cbn [best_node _update_best_node] in Hu.
  unfold endpoint_urls.
  cbn [node_swarm _update_best_node with_fast_nodes primary fast_nodes] in Hu |- *.
  apply select_best_origin in Hu as [[-> _] | (m & Hm & _ & <-)];
    cbn [primary fast_nodes] in *.
  - now left.
  - right. now apply in_map.
Qed.

End Probing.

Lemma failed_probe_records_primary_answer_witness :
  exists node' sent',
    probe_fast_node 2 degraded_net request_clock
      {| node_swarm := scenario_swarm; best_node := None |} secondary_B []
    = Some (node', sent')
    /\ url node' = "B"%string
    /\ connections node' = 12
    /\ last_block node' = 840000
    /\ latency node'
       = (request_clock
            [ {| req_url := "B"; req_method := "getblockchaininfo"; req_params := [] |};
              {| req_url := "primary"; req_method := "getblockchaininfo";
                 req_params := [] |} ]
          - request_clock [])%Q.
Proof.
  apply (failed_probe_records_primary_answer degraded_net request_clock
           {| node_swarm := scenario_swarm; best_node := None |} secondary_B [] 0
           "connection refused"%string
           {| info_connections := Some 12; info_blocks := Some 840000;
              info_size := Some 5000 |} 12 840000);
    try reflexivity; discriminate.
Defined.

Lemma failed_probe_keeps_sample_witness :
  probe_fast_node 2 (fun _ _ => Raised "timed out"%string) request_clock
    {| node_swarm := scenario_swarm; best_node := None |} secondary_B []
  = Some (secondary_B,
          [ {| req_url := "B"; req_method := "getblockchaininfo"; req_params := [] |};
            {| req_url := "primary"; req_method := "getblockchaininfo"; req_params := [] |} ]).
Proof.
  apply (failed_probe_keeps_sample (fun _ _ => Raised "timed out"%string) request_clock
           {| node_swarm := scenario_swarm; best_node := None |} secondary_B [] 0
           "timed out"%string "timed out"%string);
    try reflexivity; discriminate.
Defined.

Lemma health_check_keeps_endpoints_witness :
  exists h' sent',
    _update_node_health 2 degraded_net request_clock
      {| router := {| node_swarm := scenario_swarm; best_node := None |};
         last_node_health_check := 0; node_health_check_interval := 15 |}
      (replicate 80 {| req_url := "primary"; req_method := "getblockcount"; req_params := [] |})
    = Some (h', sent')
    /\ endpoint_urls (router h') = ["primary"; "A"; "B"]%string
    /\ forall u, best_node (router h') = Some u -> In u (endpoint_urls (router h')).
Proof.
  eexists _, _. split; [vm_compute; reflexivity|].
  eapply (health_check_keeps_endpoints degraded_net request_clock
           {| router := {| node_swarm := scenario_swarm; best_node := None |};
              last_node_health_check := 0; node_health_check_interval := 15 |}
           _
           (replicate 80 {| req_url := "primary"; req_method := "getblockcount";
                            req_params := [] |})
           _ 2).
  - vm_compute. reflexivity.
  - discriminate.
Defined.

(** ** Container statistics *)

Lemma and_then_returned {A B : Type} (x : outcome A pyerr) (f : A -> outcome B pyerr)
    (v : B) :
  and_then x f = Returned v -> exists a, x = Returned a /\ f a = Returned v.
Proof. destruct x as [a | e]; cbn; [eauto | discriminate]. Qed.

Lemma cpu_percent_try_capped (stats : pyval) (v : Q) :
  cpu_percent_try stats = Returned v -> (v <= 100)%Q.
Proof.
  unfold cpu_percent_try. intros H.
  repeat (apply and_then_returned in H as (? & _ & H)).
  injection H as <-.
  match goal with |- context [Qltb 100 ?x] => destruct (Qltb 100 x) eqn:Hcap end.
  - apply Qle_refl.
  - now apply Qltb_false in Hcap.
Qed.

(** X15: [_calculate_cpu_percent] never reports more than 100, whatever
    the statistics hold: it returns a value of at most 100 (zero when a
    key is missing or the system delta is zero), or lets the [TypeError]
    of a malformed document through; it never raises [KeyError] or
    [ZeroDivisionError]. *)
Theorem cpu_percent_is_capped (stats : pyval) :
  (exists v, _calculate_cpu_percent stats = Returned v /\ (v <= 100)%Q)
  \/ _calculate_cpu_percent stats = Raised TypeError.
Proof.
  unfold _calculate_cpu_percent.
  destruct (cpu_percent_try stats) as [v | [| |]] eqn:Htry; cbn [or_zero].
  - left. exists v. split; [reflexivity | now apply cpu_percent_try_capped with stats].
  - left. exists 0%Q. split; [reflexivity | discriminate].
  - now right.
  - left. exists 0%Q. split; [reflexivity | discriminate].
Qed.

(** X16: for statistics whose [memory_stats] hold a numeric usage [u] and
    limit [l], [_calculate_memory_percent] returns 0 when the limit is
    zero and [u / l * 100] otherwise, without a cap: a usage above a
    positive limit is reported as more than 100. *)
Theorem memory_percent_is_not_capped (stats memory_stats vu vl : pyval) (u l : Q) :
  getitem stats "memory_stats" = Returned memory_stats ->
  getitem memory_stats "usage" = Returned vu ->
  getitem memory_stats "limit" = Returned vl ->
  as_number vu = Some u ->
  as_number vl = Some l ->
  exists v,
    _calculate_memory_percent stats = Returned v
    /\ ((l == 0)%Q -> v = 0%Q)
    /\ (~ (l == 0)%Q -> v = (u / l * 100)%Q)
    /\ ((0 < l)%Q -> (l < u)%Q -> (100 < v)%Q).
Proof.
  intros Hms Hu Hl Hvu Hvl. unfold _calculate_memory_percent.
  rewrite Hms. cbn [and_then]. rewrite Hu. cbn [and_then]. rewrite Hl. cbn [and_then].
  rewrite Hvu, Hvl. unfold py_div.
  destruct (Qeq_bool l 0) eqn:Hzero; cbn [and_then or_zero].
  - apply Qeq_bool_iff in Hzero. exists 0%Q. repeat split.
    + intros Hnz. now destruct (Hnz Hzero).
    + intros Hpos _. rewrite Hzero in Hpos. now apply Qlt_irrefl in Hpos.
  - apply Qeq_bool_neq in Hzero. exists (u / l * 100)%Q. repeat split.
    + intros Hz. now destruct (Hzero Hz).
    + intros Hpos Hlt.
      assert (Hratio : (1 < u / l)%Q).
      { apply Qlt_shift_div_l; [exact Hpos|]. now rewrite Qmult_1_l. }
      lra.
Qed.

Lemma memory_percent_is_not_capped_witness :
  exists v,
    _calculate_memory_percent
      (VDict [("memory_stats"%string,
               VDict [("usage"%string, VInt 300); ("limit"%string, VInt 200)])])
    = Returned v
    /\ (100 < v)%Q.
Proof.
  destruct (memory_percent_is_not_capped
              (VDict [("memory_stats"%string,
                       VDict [("usage"%string, VInt 300); ("limit"%string, VInt 200)])])
              (VDict [("usage"%string, VInt 300); ("limit"%string, VInt 200)])
              (VInt 300) (VInt 200) 300 200)
    as (v & Hv & _ & _ & Hover); try reflexivity.
  exists v. split; [exact Hv|]. apply Hover; reflexivity.
Defined.

(** ** The cooldown window and the handling of issues *)

Section Window.

Implicit Types (m : gmap string Q) (ty : string).

(** With a time recorded for the type, the answer is the comparison of the
    time passed with the cooldown. *)
Lemma should_alert_answer (t : Q) ty m (v : Q) :
  m !! ty = Some v ->
  (should_alert t ty m).1 = Qgtb (t - v) alert_cooldown.
Proof.
  intros Hv. unfold should_alert. cbv zeta. rewrite !Hv. cbn [default from_option id].
  now destruct (Qgtb (t - v) alert_cooldown).
Qed.

Lemma quiet_calls_keep_time ty (tj : Q) (mid : list (Q * string)) :
  forall m (v : Q),
    m !! ty = Some v ->
    (forall k t, mid !! k = Some (t, ty) -> alerts mid m !! k = Some false) ->
    alerts (mid ++ [(tj, ty)]) m !! length mid = Some (Qgtb (tj - v) alert_cooldown).
Proof.
  induction mid as [|[t ty0] mid IH]; intros m v Hv Hquiet.
  - cbn. f_equal. now apply should_alert_answer.
  - cbn [app alerts length]. cbn [lookup list_lookup]. apply IH.
    + destruct (decide (ty0 = ty)) as [-> | Hne].
      * destruct (should_alert_recorded t ty m v Hv) as [(Htrue & _) | (_ & Hrec)];
          [|exact Hrec].
        specialize (Hquiet 0%nat t eq_refl). cbn in Hquiet. congruence.
      * rewrite should_alert_other; eauto.
    + intros k t' Hk. exact (Hquiet (S k) t' Hk).
Qed.

(** The answers to the first calls of a series do not depend on the calls
    that follow. *)
Lemma alerts_prefix (calls rest : list (Q * string)) m (k : nat) :
  (k < length calls)%nat ->
  alerts (calls ++ rest) m !! k = alerts calls m !! k.
Proof.
  revert m k. induction calls as [|[t ty0] calls IH]; intros m k Hk; [cbn in Hk; lia|].
  destruct k as [|k]; cbn; [reflexivity|].
  apply IH. cbn in Hk. lia.
Qed.

End Window.

(** X17: the cooldown suppresses exactly 300 seconds.  After a call that
    answered [True] at time [t0], and any calls since of which none for
    the same type answered [True], the next call for that type answers
    [True] if and only if it comes more than 300 seconds after [t0]. *)
Theorem alert_resumes_after_cooldown (last_alert_time : gmap string Q) (t0 tj : Q)
    (issue_type : string) (mid : list (Q * string)) :
  let calls := (t0, issue_type) :: mid ++ [(tj, issue_type)] in
  alerts calls last_alert_time !! 0%nat = Some true ->
  (forall k t, mid !! k = Some (t, issue_type) ->
     alerts calls last_alert_time !! S k = Some false) ->
  exists answer,
    alerts calls last_alert_time !! S (length mid) = Some answer
    /\ (answer = true <-> (t0 + 300 < tj)%Q).
Proof.
  intros calls Hfirst Hquiet. subst calls. cbn [alerts] in *.
  cbn [lookup list_lookup] in *. injection Hfirst as Hfirst.
  apply should_alert_true in Hfirst.
  assert (Hmid : forall k t, mid !! k = Some (t, issue_type) ->
            alerts mid (should_alert t0 issue_type last_alert_time).2 !! k = Some false).
  { intros k t Hk. specialize (Hquiet k t Hk).
    rewrite <- Hquiet. symmetry. apply alerts_prefix.
    now apply lookup_lt_Some in Hk. }
  exists (Qgtb (tj - t0) alert_cooldown). split.
  - now apply quiet_calls_keep_time.
  - rewrite Qgtb_true. unfold alert_cooldown. split; intros; lra.
Qed.

Lemma alert_resumes_after_cooldown_witness :
  exists answer,
    alerts [(1000, "high_cpu"); (1100, "high_memory"); (1200, "high_cpu");
            (1301, "high_cpu")]%Q (∅ : gmap string Q) !! 3%nat = Some answer
    /\ (answer = true <-> (1000 + 300 < 1301)%Q).
Proof.
  apply (alert_resumes_after_cooldown ∅ 1000 1301 "high_cpu"
           [(1100, "high_memory"); (1200, "high_cpu")]%Q).
  - vm_compute. reflexivity.
  - intros [|[|k]] t Hk; cbn in Hk; try discriminate.
    vm_compute. reflexivity.
Defined.

(** ** One pass over the issues *)

Section IssuePass.

Variable a : Q.

(** The state of a pass whose clock readings all lie between [a] and
    [a + alert_cooldown]: no type has been alerted twice, and every type
    alerted has a time of at least [a] recorded. *)
Let once (s : AlertState) : Prop :=
  NoDup (map issue_type (alerted s))
  /\ forall ty, In ty (map issue_type (alerted s)) ->
       exists v, alert_times s !! ty = Some v /\ (a <= v)%Q.

Lemma process_issues_once (issues : list (Issue * IssueEnv)) (s : AlertState) :
  (forall issue env, In (issue, env) issues ->
     (a <= check_time env <= a + alert_cooldown)%Q) ->
  once s -> once (fst (process_issues issues s)).
Proof.
  revert s. induction issues as [|[issue env] issues IH]; intros s Hwin Hs; [exact Hs|].
  assert (Hnow : (a <= check_time env <= a + alert_cooldown)%Q)
    by (apply (Hwin issue env); now left).
  assert (Hrest : forall issue' env', In (issue', env') issues ->
            (a <= check_time env' <= a + alert_cooldown)%Q)
    by (intros issue' env' Hin; apply (Hwin issue' env'); now right).
  destruct Hs as [Hnodup Hrec].
  cbn [process_issues].
  destruct (should_alert (check_time env) (issue_type issue) (alert_times s)).1 eqn:Hans.
  - assert (Hnew : ~ In (issue_type issue) (map issue_type (alerted s))).
    { intros Hin. destruct (Hrec _ Hin) as (v & Hv & Hav).
      destruct (should_alert_recorded (check_time env) (issue_type issue)
                  (alert_times s) v Hv) as [(_ & Hlt & _) | (Hf & _)];
        [lra | congruence]. }
    assert (Hs1 : once {| alert_times := (should_alert (check_time env) (issue_type issue)
                                            (alert_times s)).2;
                          alerted := alerted s ++ [issue];
                          not_alerted := not_alerted s;
                          monitor_alerts := monitor_alerts s |}).
    { split; cbn [alerted alert_times].
      - rewrite map_app. cbn [map]. apply NoDup_app. repeat split.
        + exact Hnodup.
        + intros ty Hty Hty'. apply list_elem_of_In in Hty.
          apply list_elem_of_singleton in Hty'. subst ty. now apply Hnew.
        + apply NoDup_singleton.
      - intros ty Hty. rewrite map_app in Hty. cbn [map] in Hty.
        apply in_app_or in Hty as [Hty | [<- | []]].
        + destruct (Hrec _ Hty) as (v & Hv & Hav).
          exists v. split; [|exact Hav].
          rewrite should_alert_other; [exact Hv | | eauto].
          intros Heq. apply Hnew. now rewrite Heq.
        + exists (check_time env). split; [now apply should_alert_true | tauto]. }
    destruct (lpush_result env); [|exact Hs1].
    destruct (ltrim_result env); [|exact Hs1].
    apply IH; [exact Hrest | exact Hs1].
  - apply IH; [exact Hrest|]. split; cbn [alerted alert_times]; [exact Hnodup|].
    intros ty Hty. destruct (Hrec _ Hty) as (v & Hv & Hav). exists v. split; [|exact Hav].
    destruct (decide (issue_type issue = ty)) as [<- | Hne].
    + destruct (should_alert_recorded (check_time env) (issue_type issue)
                  (alert_times s) v Hv) as [(Ht & _) | (_ & Hkeep)];
        [congruence | exact Hkeep].
    + rewrite should_alert_other; eauto.
Qed.

(** X18: in a pass of [monitor_all] whose calls to [should_alert] all
    happen within [alert_cooldown] seconds of each other, no issue type is
    alerted more than once, however many issues of the type the checks
    report and whether or not Redis fails on the way. *)
Theorem one_alert_per_type_per_pass (issues : list (Issue * IssueEnv)) (s : AlertState) :
  alerted s = [] ->
  (forall issue env, In (issue, env) issues ->
     (a <= check_time env <= a + alert_cooldown)%Q) ->
  NoDup (map issue_type (alerted (fst (process_issues issues s)))).
Proof.
  intros Hfresh Hwin.
  apply (process_issues_once issues s Hwin).
  split; rewrite Hfresh; [apply NoDup_nil_2 | intros ty []].
Qed.

End IssuePass.

Lemma one_alert_per_type_per_pass_witness :
  let cpu name := {| issue_type := "high_cpu"; message := name |} in
  let at_ t := {| check_time := t; push_time := t; lpush_result := Returned tt;
                  ltrim_result := Returned tt |} in
  NoDup (map issue_type
           (alerted (fst (process_issues
                            [(cpu "web"%string, at_ 1000%Q); (cpu "db"%string, at_ 1001%Q)]
                            {| alert_times := ∅; alerted := []; not_alerted := [];
                               monitor_alerts := [] |})))).
Proof.
  intros cpu at_.
  apply (one_alert_per_type_per_pass 1000%Q).
  - reflexivity.
  - intros issue env [[= <- <-] | [[= <- <-] | []]]; cbn; unfold alert_cooldown; lra.
Defined.

(** X19: a pass of [monitor_all] that Redis does not interrupt logs every
    issue exactly once, as an alert or as a non-alerting issue: the two
    logs together grow by the issues of the pass. *)
Theorem every_issue_is_logged (issues : list (Issue * IssueEnv)) (s s' : AlertState) :
  process_issues issues s = (s', None) ->
  alerted s' ++ not_alerted s' ≡ₚ (alerted s ++ not_alerted s) ++ map fst issues.
Proof.
  revert s. induction issues as [|[issue env] issues IH]; intros s; cbn [process_issues].
  - intros [= <-]. cbn. now rewrite app_nil_r.
  - destruct (should_alert _ _ _).1.
    + destruct (lpush_result env); [|discriminate].
      destruct (ltrim_result env); [|discriminate].
      intros Hrest. apply IH in Hrest. rewrite Hrest. cbn [alerted not_alerted map fst].
      rewrite <- !app_assoc. apply Permutation_app_head.
      cbn [app]. apply Permutation_middle.
    + intros Hrest. apply IH in Hrest. rewrite Hrest. cbn [alerted not_alerted map fst].
      now rewrite <- !app_assoc.
Qed.

Lemma every_issue_is_logged_witness :
  let cpu name := {| issue_type := "high_cpu"; message := name |} in
  let at_ t := {| check_time := t; push_time := t; lpush_result := Returned tt;
                  ltrim_result := Returned tt |} in
  exists s',
    process_issues [(cpu "web"%string, at_ 1000%Q); (cpu "db"%string, at_ 1001%Q)]
      {| alert_times := ∅; alerted := []; not_alerted := []; monitor_alerts := [] |}
    = (s', None)
    /\ alerted s' ++ not_alerted s' ≡ₚ [cpu "web"%string; cpu "db"%string].
Proof.
  intros cpu at_. eexists. split; [vm_compute; reflexivity|].
  eapply (every_issue_is_logged
            [(cpu "web"%string, at_ 1000%Q); (cpu "db"%string, at_ 1001%Q)]
            {| alert_times := ∅; alerted := []; not_alerted := []; monitor_alerts := [] |}).
  vm_compute. reflexivity.
Defined.

(** ** The two endless loops *)

(** X20: [main] is never ended by an [Exception] raised while checking: as
    long as no pass meets a [KeyboardInterrupt] or a [SystemExit], and no
    error pause is interrupted, it goes round once per pass, sleeps 60
    seconds after each, and logs one line per failed pass. *)
Theorem main_survives_exceptions (passes : list Pass) (s : MainState) :
  (forall p, In p passes ->
     in_handler p = None
     /\ in_try p <> Some RKeyboardInterrupt /\ in_try p <> Some RSystemExit) ->
  exists s',
    main passes s = MainLooping s'
    /\ main_passes s' = (main_passes s + length passes)%nat
    /\ main_slept s' = main_slept s ++ replicate (length passes) 60%Q
    /\ length (main_errors s')
       = (length (main_errors s)
          + length (filter (fun p => in_try p <> None) passes))%nat.
Proof.
  revert s. induction passes as [|p passes IH]; intros s Hok.
  - exists s. cbn. rewrite app_nil_r. repeat split; lia.
  - destruct (Hok p (or_introl eq_refl)) as (Hh & Hki & Hse).
    assert (Hrest : forall p', In p' passes ->
              in_handler p' = None
              /\ in_try p' <> Some RKeyboardInterrupt /\ in_try p' <> Some RSystemExit)
      by (intros p' Hp'; apply Hok; now right).
    cbn [main]. rewrite filter_cons.
    destruct (in_try p) as [[msg | |]|] eqn:Htry; try congruence.
    + rewrite Hh.
      edestruct IH as (s' & -> & Hpasses & Hslept & Herrors); [exact Hrest|].
      exists s'. cbn in *. rewrite Hpasses, Hslept, Herrors, length_app, <- app_assoc.
      destruct (decide (Some (RException msg) <> None)) as [_ | Hn];
        [|now destruct Hn].
      cbn. repeat split; lia.
    + edestruct IH as (s' & -> & Hpasses & Hslept & Herrors); [exact Hrest|].
      exists s'. cbn in *. rewrite Hpasses, Hslept, Herrors, <- app_assoc.
      destruct (decide (@None raised <> None)) as [Hn | _]; [now destruct Hn|].
      cbn. repeat split; lia.
Qed.

Lemma main_survives_exceptions_witness :
  exists s',
    main [ {| in_try := Some (RException "Connection refused"); in_handler := None |};
           {| in_try := None; in_handler := None |} ]
         {| main_passes := 0; main_errors := []; main_slept := [] |}
    = MainLooping s'
    /\ main_passes s' = 2%nat.
Proof.
  destruct (main_survives_exceptions
              [ {| in_try := Some (RException "Connection refused"); in_handler := None |};
                {| in_try := None; in_handler := None |} ]
              {| main_passes := 0; main_errors := []; main_slept := [] |})
    as (s' & Hmain & Hpasses & _).
  - intros p [<- | [<- | []]]; repeat split; discriminate.
  - exists s'. split; [exact Hmain | exact Hpasses].
Defined.

(** X21: as long as the [rpush] of the [except] branch succeeds and nothing
    but an [Exception] is raised, [start_monitoring] goes round once per
    pass, whatever the passes raise; it pauses after every pass, and every
    error it logs is also pushed to [faithswarm:errors]. *)
Theorem monitoring_loop_survives_while_redis_answers (ticks : list Tick) (s : LoopState) :
  (forall t, In t ticks ->
     tick_rpush t = None /\ forall msg, tick_body t <> Some (Interrupt msg)) ->
  logged s = pushed s ->
  exists s',
    start_monitoring ticks s = Looping s'
    /\ passes s' = (passes s + length ticks)%nat
    /\ length (slept s') = (length (slept s) + length ticks)%nat
    /\ logged s' = pushed s'.
Proof.
  revert s. induction ticks as [|t ticks IH]; intros s Hok Hlog.
  - exists s. cbn. repeat split; [lia | lia | exact Hlog].
  - destruct (Hok t (or_introl eq_refl)) as [Hpush Hbody].
    assert (Hrest : forall t', In t' ticks ->
              tick_rpush t' = None /\ forall msg, tick_body t' <> Some (Interrupt msg))
      by (intros t' Ht'; apply Hok; now right).
    cbn [start_monitoring]. destruct (tick_body t) as [[msg | msg]|].
    + rewrite Hpush.
      edestruct IH as (s' & -> & Hpasses & Hslept & Hsame);
        [exact Hrest | cbn; now rewrite Hlog |].
      exists s'. cbn in *. rewrite length_app in Hslept. cbn in Hslept.
      repeat split; [lia | lia | exact Hsame].
    + now destruct (Hbody msg).
    + edestruct IH as (s' & -> & Hpasses & Hslept & Hsame); [exact Hrest | exact Hlog |].
      exists s'. cbn in *. rewrite length_app in Hslept. cbn in Hslept.
      repeat split; [lia | lia | exact Hsame].
Qed.

Lemma monitoring_loop_survives_while_redis_answers_witness :
  exists s',
    start_monitoring
      [ {| tick_body := Some (Exception "Bitcoin monitoring error"); tick_rpush := None |};
        quiet_tick ] loop_start
    = Looping s'
    /\ passes s' = 2%nat
    /\ logged s' = pushed s'.
Proof.
  destruct (monitoring_loop_survives_while_redis_answers
              [ {| tick_body := Some (Exception "Bitcoin monitoring error");
                   tick_rpush := None |};
                quiet_tick ] loop_start)
    as (s' & Hloop & Hpasses & _ & Hsame).
  - intros t [<- | [<- | []]]; split; discriminate || reflexivity.
  - reflexivity.
  - exists s'. repeat split; assumption.
Defined.

(** ** Verifying the connections *)

Section Verification.

Context {R : Type}.
Variable net : Network R string.
Variable has_result : R -> outcome bool string.
Variable r : Router.

Let prim : string := p_url (primary (node_swarm r)).
Let to_primary : Request :=
  {| req_url := prim; req_method := "getblockchaininfo"; req_params := [] |}.

Hypothesis primary_configured : prim <> ""%string.
Hypothesis primary_answers :
  forall before, exists reply,
    net before to_primary = Returned reply /\ has_result reply = Returned true.
Hypothesis others_down :
  forall before rq, req_url rq <> prim -> exists e, net before rq = Raised e.

Lemma verify_nodes_pass (depth : nat) (urls : list string) :
  forall (sent : list Request) (log : list string),
    exists sent',
      verify_nodes (S (S depth)) net has_result r urls sent log
      = Some (log ++ map (fun u => ("Connected to Bitcoin node: " ++ u)%string)
                         (List.filter truthy urls),
              None, sent').
Proof.
  induction urls as [|u urls IH]; intros sent log.
  - exists sent. cbn. now rewrite app_nil_r.
  - cbn [verify_nodes List.filter]. destruct (truthy u) eqn:Hu; [|apply IH].
    assert (Hne : u <> ""%string) by (intros ->; discriminate).
    destruct (String.eqb u prim) eqn:Hprim.
    + apply String.eqb_eq in Hprim. subst u.
      rewrite btc_rpc_on_primary by now apply target_url_explicit.
      fold prim. fold to_primary.
      destruct (primary_answers sent) as (reply & -> & ->).
      destruct (IH (sent ++ [to_primary])
                   (log ++ [("Connected to Bitcoin node: " ++ prim)%string]))
        as (sent' & ->).
      exists sent'. cbn [map]. now rewrite <- app_assoc.
    + apply String.eqb_neq in Hprim.
      destruct (others_down sent {| req_url := u; req_method := "getblockchaininfo";
                                    req_params := [] |} Hprim) as [e He].
      rewrite (btc_rpc_falls_back net r "getblockchaininfo" [] u sent depth e)
        by assumption.
      fold prim. fold to_primary.
      destruct (primary_answers (sent ++ [{| req_url := u; req_method := "getblockchaininfo";
                                             req_params := [] |}]))
        as (reply & -> & ->).
      match goal with |- context [verify_nodes _ _ _ _ urls ?s ?l] =>
        destruct (IH s l) as (sent' & ->) end.
      exists sent'. cbn [map]. now rewrite <- app_assoc.
Qed.

(** X22: the verification at start-up cannot tell a fast node that is
    down from one that is up.  With a configured primary that answers
    every request, and every other node down, each configured URL is still
    reported as connected (its request is answered by the primary through
    the fallback), and the verification passes when Ethereum and Redis
    answer. *)
Theorem verification_passes_on_primary_alone (depth : nat) (sent : list Request) :
  exists sent',
    _verify_connections (S (S depth)) net has_result (Returned true) (Returned tt) r sent
    = Some (map (fun u => ("Connected to Bitcoin node: " ++ u)%string)
                (List.filter truthy (endpoint_urls r))
            ++ ["Connected to Ethereum node"; "Connected to Redis"]%string,
            None, sent').
Proof.
  unfold _verify_connections.
  destruct (verify_nodes_pass depth (endpoint_urls r) sent []) as (sent' & ->).
  exists sent'. cbn [app]. now rewrite <- app_assoc.
Qed.

End Verification.

Lemma verification_passes_on_primary_alone_witness :
  exists sent',
    _verify_connections 2 primary_only_net (fun _ => Returned true) (Returned true)
      (Returned tt) {| node_swarm := scenario_swarm; best_node := None |} []
    = Some (["Connected to Bitcoin node: primary"; "Connected to Bitcoin node: A";
             "Connected to Bitcoin node: B"; "Connected to Ethereum node";
             "Connected to Redis"]%string, None, sent').
Proof.
  apply (verification_passes_on_primary_alone primary_only_net (fun _ => Returned true)
           {| node_swarm := scenario_swarm; best_node := None |}).
  - discriminate.
  - intros before. eexists. split; reflexivity.
  - intros before rq Hother. exists "connection refused"%string.
    unfold primary_only_net. cbn in Hother.
    apply String.eqb_neq in Hother. now rewrite Hother.
Defined.
